(** * Sequence intervals of the shared sequence: a shallow embedding

    The embedded program is [sequenceInterval.ts]: the interval class
    [SequenceIntervalClass], the endpoint factory
    [createPositionReference] / [createPositionReferenceFromSegoff], the
    interval factory [createSequenceInterval] and the reader of serialized
    properties [getSerializedProperties].

    JavaScript values that the code inspects are modelled as they are:
    reference types are bit sets on [Z], optional arguments are [option],
    property bags are finite maps from strings to values, exceptions are an
    error monad, and object identity of position references is an
    allocation number. *)

From Stdlib Require Import ZArith Lia String Ascii DecimalString.
From stdpp Require Import base option gmap strings fin_maps.

Local Open Scope string_scope.
Local Open Scope Z_scope.

Set Warnings "-register-all".

(** ** JavaScript values and property bags *)

(** The values a property bag can hold ([PropertySet] is a [MapLike<any>]).
    An own key may hold [undefined]. *)
Inductive Value : Type :=
| VUndefined
| VNull
| VBool (b : bool)
| VNum (n : Z)
| VStr (s : string)
| VArr (xs : list Value).

Abbreviation PropertySet := (gmap string Value).

(** [o[k]]: reading a key that is not there gives [undefined]. *)
Definition js_get (o : PropertySet) (k : string) : Value :=
  default VUndefined (o !! k).

(** [a ?? b]: the right operand replaces [undefined] and [null] only. *)
Definition nullish (a b : Value) : Value :=
  match a with
  | VUndefined | VNull => b
  | _ => a
  end.

(** ** Places in the sequence *)

(** [Side], from the merge tree: which side of a character an endpoint is on. *)
Inductive Side : Type := Before | After.

(** The two special endpoints of a sequence, written ["start"] and ["end"]. *)
Inductive Endpoint : Type := EStart | EEnd.

(** [number | "start" | "end"].  Positions are integers, well inside the
    range in which JavaScript prints a number in plain decimal. *)
Inductive Pos : Type :=
| PNum (n : Z)
| PEndpoint (e : Endpoint).

(** [SequencePlace]: a position, or an [InteriorSequencePlace {pos, side}]. *)
Inductive SequencePlace : Type :=
| Plain (p : Pos)
| Interior (pos : Z) (side : Side).

Definition endpoint_to_string (e : Endpoint) : string :=
  match e with EStart => "start" | EEnd => "end" end.

(** [String(n)] for an integer [n]. *)
Definition number_to_string (n : Z) : string :=
  NilZero.string_of_int (Z.to_int n).

(** What a template literal prints for [number | "start" | "end" | undefined]. *)
Definition template_of_pos (p : option Pos) : string :=
  match p with
  | None => "undefined"
  | Some (PNum n) => number_to_string n
  | Some (PEndpoint e) => endpoint_to_string e
  end.

(** ** Enumerations of intervalUtils and the merge tree *)

Module IntervalType.
(** [IntervalType]: Simple = 0, Nest = 1, SlideOnRemove = 2, Transient = 4. *)
Inductive t : Type := Simple | Nest | SlideOnRemove | Transient.

Definition eqb (a b : t) : bool :=
  match a, b with
  | Simple, Simple | Nest, Nest | SlideOnRemove, SlideOnRemove
  | Transient, Transient => true
  | _, _ => false
  end.
End IntervalType.

Inductive IntervalStickiness : Type := NONE | START | END | FULL.

Inductive SlidingPreference : Type := BACKWARD | FORWARD.

Definition SlidingPreference_eqb (a b : SlidingPreference) : bool :=
  match a, b with
  | BACKWARD, BACKWARD | FORWARD, FORWARD => true
  | _, _ => false
  end.

Module ReferenceType.
(** Modelled from the spec: the constants of the merge tree's
    [ReferenceType] enumeration, whose declaration is not part of the
    sources at hand.  The spec describes a bit set over RangeBegin,
    RangeEnd, SlideOnRemove, StayOnRemove and Transient, one bit each;
    the values are those of the merge tree. *)
Definition Simple : Z := 0.
Definition Tile : Z := 1.
Definition RangeBegin : Z := 16.
Definition RangeEnd : Z := 32.
Definition SlideOnRemove : Z := 64.
Definition StayOnRemove : Z := 128.
Definition Transient : Z := 256.
End ReferenceType.

(** ** Serialized intervals *)

(** [SerializedIntervalDelta]; an [ISerializedInterval] is one with both
    endpoints present. *)
Record SerializedIntervalDelta : Type := mkSerialized {
  ser_start : option Pos;
  ser_end : option Pos;
  ser_intervalType : IntervalType.t;
  ser_sequenceNumber : Z;
  ser_stickiness : option IntervalStickiness;
  ser_startSide : option Side;
  ser_endSide : option Side;
  ser_properties : option PropertySet
}.

Definition reservedIntervalIdKey : string := "intervalId".

(** [reservedRangeLabelsKey], imported from the merge tree. *)
Definition reservedRangeLabelsKey : string := "referenceRangeLabels".

Definition legacyIdPrefix : string := "legacy".

Record SerializedProperties : Type := mkSerializedProperties {
  sp_id : Value;
  sp_labels : Value;
  sp_properties : PropertySet
}.

(** [getSerializedProperties]: the two reserved keys are read off the bag
    by destructuring, the rest of the bag is the user's properties, and a
    missing id is made up from the endpoints. *)
Definition getSerializedProperties (serializedInterval : SerializedIntervalDelta)
  : SerializedProperties :=
  let bag : PropertySet := default ∅ (ser_properties serializedInterval) in
  let maybeId := js_get bag reservedIntervalIdKey in
  let labels := js_get bag reservedRangeLabelsKey in
  let properties := delete reservedRangeLabelsKey (delete reservedIntervalIdKey bag) in
  let id :=
    nullish maybeId
      (VStr (legacyIdPrefix +:+ template_of_pos (ser_start serializedInterval)
               +:+ "-" +:+ template_of_pos (ser_end serializedInterval))) in
  {| sp_id := id; sp_labels := labels; sp_properties := properties |}.

(** ** Bit operations on numbers *)

(** JavaScript's bitwise operators work on the 32-bit two's complement
    image of their operands. *)
Definition toInt32 (z : Z) : Z := (z + 2 ^ 31) mod 2 ^ 32 - 2 ^ 31.

Definition js_and (a b : Z) : Z := Z.land (toInt32 a) (toInt32 b).
Definition js_or (a b : Z) : Z := Z.lor (toInt32 a) (toInt32 b).
Definition js_not (a : Z) : Z := Z.lnot (toInt32 a).

(** [refTypeIncludesFlag(refType, flags)]: [(refType & flags) !== 0]. *)
Definition refTypeIncludesFlag (refType flags : Z) : bool :=
  negb (js_and refType flags =? 0).

(** ** Errors and the allocation of objects *)

(** The two ways the code gives up: [throw new UsageError(message)] and a
    failed [assert(condition, code)]. *)
Inductive Error : Type :=
| UsageError (message : string)
| AssertionError (code : Z).

(** The [uuid] package's v4 generator is not part of the program.  It is
    kept abstract: a generator state, the draw, and the set of ids the
    generator accounts for (those in use and those it has issued), with the
    contract that a draw is none of them. *)
Class UuidGenerator : Type := {
  gen : Type;
  uuid_draw : gen -> string * gen;
  taken : gen -> gset string;
  uuid_draw_fresh : forall g, (uuid_draw g).1 ∉ taken g;
  uuid_draw_taken : forall g, taken (uuid_draw g).2 = {[ (uuid_draw g).1 ]} ∪ taken g
}.

Section Program.

Context `{UG : UuidGenerator}.

(** What the program's effects act on: the number of the next object to be
    allocated (object identity, compared by [===]) and the uuid generator. *)
Record World : Type := mkWorld {
  next_oid : nat;
  uuid_state : gen
}.

Definition M (A : Type) : Type := World -> Error + (A * World).

#[global] Instance M_ret : MRet M := fun A (a : A) w => inr (a, w).

#[global] Instance M_bind : MBind M := fun A B (k : A -> M B) (c : M A) w =>
  match c w with
  | inl e => inl e
  | inr (a, w') => k a w'
  end.

Definition throw {A} (e : Error) : M A := fun _ => inl e.

(** [assert(condition, code)] *)
Definition assert (condition : bool) (code : Z) : M unit :=
  if condition then mret tt else throw (AssertionError code).

(** [new]: the identity of a freshly allocated object. *)
Definition alloc : M nat :=
  fun w => inr (next_oid w, {| next_oid := S (next_oid w); uuid_state := uuid_state w |}).

(** [uuid()] *)
Definition uuid : M string :=
  fun w => let '(u, g) := uuid_draw (uuid_state w) in
           inr (u, {| next_oid := next_oid w; uuid_state := g |}).

(** ** Segments, position references, the client *)

(** A segment of the merge tree, as far as the intervals look at it: the
    two endpoint segments carry an [endpointType], the others do not. *)
Inductive Segment : Type :=
| EndpointSegment (e : Endpoint)
| TextSegment (ordinal : Z).

Definition endpointType (s : Segment) : option Endpoint :=
  match s with
  | EndpointSegment e => Some e
  | TextSegment _ => None
  end.

(** [segment?.endpointType] as a position. *)
Definition endpointType_of (s : option Segment) : option Pos :=
  match s with
  | Some seg => PEndpoint <$> endpointType seg
  | None => None
  end.

(** [LocalReferencePosition]: [lref_oid] is the identity of the object. *)
Record LocalReferencePosition : Type := mkLref {
  lref_oid : nat;
  refType : Z;
  slidingPreference : option SlidingPreference;
  canSlideToEndpoint : option bool;
  getSegment : option Segment;
  getOffset : option Z;
  lref_properties : option PropertySet
}.

(** [a === b] on position references. *)
Definition same_object (a b : LocalReferencePosition) : bool :=
  Nat.eqb (lref_oid a) (lref_oid b).

(** What [createPositionReferenceFromSegoff] is given:
    [{segment, offset} | undefined | "start" | "end"]. *)
Inductive Segoff : Type :=
| SegoffEndpoint (e : Endpoint)
| SegoffAt (segment : option Segment) (offset : option Z)
| SegoffUndefined.

(** [ISequencedDocumentMessage], the fields the intervals read. *)
Record ISequencedDocumentMessage : Type := mkMessage {
  sequenceNumber : Z;
  minimumSequenceNumber : Z;
  referenceSequenceNumber : Z;
  clientId : option string
}.

(** The merge tree's [Client], the methods the intervals call that answer
    from the state of the tree. *)
Record Client : Type := mkClient {
  getContainingSegment : Z -> option (Z * option string) -> option Z -> Segoff;
  localReferencePositionToPosition : LocalReferencePosition -> Z;
  getCurrentSeq : Z;
  collaborating : bool
}.

(** The functions the intervals import from the merge tree and from
    intervalUtils, kept abstract. *)
Class MergeTree : Type := {
  compareReferencePositions : LocalReferencePosition -> LocalReferencePosition -> Z;
  minReferencePosition :
    LocalReferencePosition -> LocalReferencePosition -> LocalReferencePosition;
  maxReferencePosition :
    LocalReferencePosition -> LocalReferencePosition -> LocalReferencePosition;
  getSlideToSegoff : Segoff -> option SlidingPreference -> bool -> Segoff;
  computeStickinessFromSide :
    option Pos -> Side -> option Pos -> Side -> IntervalStickiness;
  startReferenceSlidingPreference : IntervalStickiness -> SlidingPreference;
  endReferenceSlidingPreference : IntervalStickiness -> SlidingPreference
}.

Context `{MT : MergeTree}.

(** Modelled from the spec: [Client.createLocalReferencePosition
    (segmentOrSentinel, offset?, refType, initialProps?, slidingPreference,
    canSlideToEndpoint)], whose body is in the merge tree.  It makes a new
    reference anchored at the segment, or at the endpoint segment a
    sentinel names, carrying the flags it is given. *)
Definition createLocalReferencePosition (client : Client)
    (segmentOrSentinel : Endpoint + Segment) (offset : option Z) (refType : Z)
    (properties : option PropertySet)
    (slidingPreference : option SlidingPreference)
    (canSlideToEndpoint : option bool) : M LocalReferencePosition :=
  oid ← alloc;
  mret {| lref_oid := oid;
         refType := refType;
         slidingPreference := slidingPreference;
         canSlideToEndpoint := canSlideToEndpoint;
         getSegment := Some (match segmentOrSentinel with
                             | inl e => EndpointSegment e
                             | inr s => s
                             end);
         getOffset := offset;
         lref_properties := properties |}.

(** Modelled from the spec: [createDetachedLocalReferencePosition
    (slidingPreference, refType)] of the merge tree: a new reference on no
    segment, carrying the sliding preference and the reference type only. *)
Definition createDetachedLocalReferencePosition
    (slidingPreference : option SlidingPreference) (refType : Z)
  : M LocalReferencePosition :=
  oid ← alloc;
  mret {| lref_oid := oid;
         refType := refType;
         slidingPreference := slidingPreference;
         canSlideToEndpoint := None;
         getSegment := None;
         getOffset := None;
         lref_properties := None |}.

(** Truthiness of an optional number and of an optional boolean: [!x] holds
    of [undefined], of [0] and of [false]. *)
Definition truthy_number (n : option Z) : bool :=
  match n with
  | Some n => negb (n =? 0)
  | None => false
  end.

Definition truthy_boolean (b : option bool) : bool := default false b.

Definition is_defined {A} (o : option A) : bool :=
  match o with Some _ => true | None => false end.

Definition createPositionReferenceFromSegoff (client : Client) (segoff : Segoff)
    (refType : Z) (op : option ISequencedDocumentMessage) (localSeq : option Z)
    (fromSnapshot : option bool) (slidingPreference : option SlidingPreference)
    (canSlideToEndpoint : option bool) (rollback : option bool)
  : M LocalReferencePosition :=
  match segoff with
  | SegoffEndpoint e =>
      createLocalReferencePosition client (inl e) None refType None
        slidingPreference canSlideToEndpoint
  | SegoffAt (Some segment) offset =>
      createLocalReferencePosition client (inr segment) offset refType None
        slidingPreference canSlideToEndpoint
  | SegoffAt None _ | SegoffUndefined =>
      if negb (is_defined op)
         && negb (truthy_number localSeq)
         && negb (truthy_boolean fromSnapshot)
         && negb (refTypeIncludesFlag refType ReferenceType.Transient)
         && negb (truthy_boolean rollback)
      then throw (UsageError "Non-transient references need segment")
      else createDetachedLocalReferencePosition slidingPreference refType
  end.

Definition createPositionReference (client : Client) (pos : Pos) (refType : Z)
    (op : option ISequencedDocumentMessage) (fromSnapshot : option bool)
    (localSeq : option Z) (slidingPreference : option SlidingPreference)
    (exclusive : bool) (useNewSlidingBehavior : bool) (rollback : option bool)
  : M LocalReferencePosition :=
  segoff ←
    match op with
    | Some o =>
        assert (negb (js_and refType ReferenceType.SlideOnRemove =? 0)) 0x2f5;;
        mret match pos with
            | PEndpoint e => SegoffEndpoint e
            | PNum n =>
                getSlideToSegoff
                  (getContainingSegment client n
                     (Some (referenceSequenceNumber o, clientId o)) None)
                  slidingPreference useNewSlidingBehavior
            end
    | None =>
        assert ((js_and refType ReferenceType.SlideOnRemove =? 0)
                || truthy_boolean fromSnapshot) 0x2f6;;
        mret match pos with
            | PEndpoint e => SegoffEndpoint e
            | PNum n => getContainingSegment client n None localSeq
            end
    end;
  createPositionReferenceFromSegoff client segoff refType op localSeq
    fromSnapshot slidingPreference (Some exclusive) rollback.

End Program.

(** ** Helpers of the merge tree that the interval class calls *)

(** What [endpointPosAndSide] returns. *)
Record PosAndSide : Type := mkPosAndSide {
  pas_startSide : option Side;
  pas_endSide : option Side;
  pas_startPos : option Pos;
  pas_endPos : option Pos
}.

Definition place_side (p : option SequencePlace) : option Side :=
  match p with
  | Some (Plain _) => Some Before
  | Some (Interior _ side) => Some side
  | None => None
  end.

Definition place_pos (p : option SequencePlace) : option Pos :=
  match p with
  | Some (Plain pos) => Some pos
  | Some (Interior pos _) => Some (PNum pos)
  | None => None
  end.

(** Modelled from the spec: [endpointPosAndSide(start, end)] of the merge
    tree, which normalizes two places into positions and sides: a plain
    position is on side [Before], an interior place gives its own position
    and side, and an absent place gives nothing. *)
Definition endpointPosAndSide (start end_ : option SequencePlace) : PosAndSide :=
  {| pas_startSide := place_side start;
     pas_endSide := place_side end_;
     pas_startPos := place_pos start;
     pas_endPos := place_pos end_ |}.

(** Modelled from the spec: [addProperties(oldProps, newProps)] of the
    merge tree, which adds the entries of [newProps] to the map; as
    everywhere in the merge tree's property sets an entry whose value is
    [undefined] is passed over (the key stays as it was in [oldProps]), an
    entry whose value is [null] removes its key, and any other value is
    stored under its key.  This is how overriding a reserved key with
    [undefined] keeps it out of the map of a new interval. *)
Definition addProperties (oldProps newProps : PropertySet) : PropertySet :=
  merge (fun o n => match n with
                    | Some VUndefined => o
                    | Some VNull => None
                    | Some v => Some v
                    | None => o
                    end) oldProps newProps.

(** [ref.addProperties(props)] on a position reference. *)
Definition lref_addProperties (ref : LocalReferencePosition) (props : PropertySet)
  : LocalReferencePosition :=
  {| lref_oid := lref_oid ref;
     refType := refType ref;
     slidingPreference := slidingPreference ref;
     canSlideToEndpoint := canSlideToEndpoint ref;
     getSegment := getSegment ref;
     getOffset := getOffset ref;
     lref_properties := Some (addProperties (default ∅ (lref_properties ref)) props) |}.

(** Modelled from the spec: the property-change manager of an interval,
    which tracks the keys with pending local changes. *)
Record PropertiesManager : Type := mkPropertiesManager {
  pendingKeys : gmap string Z
}.

(** ** Strings as JavaScript compares and tests them *)

(** [a > b] and [a < b] on strings: lexicographic on the code units. *)
Definition js_string_gt (a b : string) : bool :=
  match String.compare a b with Gt => true | _ => false end.

Definition js_string_lt (a b : string) : bool :=
  match String.compare a b with Lt => true | _ => false end.

(** A string is truthy when it is not empty. *)
Definition truthy_string (s : string) : bool :=
  match s with EmptyString => false | _ => true end.

(** ** The interval class *)

Definition compareSides (sideA sideB : Side) : Z :=
  match sideA, sideB with
  | Before, Before | After, After => 0
  | Before, After => 1
  | After, Before => -1
  end.

Definition minSide (sideA sideB : Side) : Side :=
  match sideA, sideB with
  | After, After => After
  | _, _ => Before
  end.

Definition maxSide (sideA sideB : Side) : Side :=
  match sideA, sideB with
  | Before, Before => Before
  | _, _ => After
  end.

Module SequenceIntervalClass.

(** The fields of the class; [propertyManager] and [properties] are the
    two parts of the private [#props]. *)
Record t : Type := mk {
  client : Client;
  id : string;
  label : string;
  start : LocalReferencePosition;
  end_ : LocalReferencePosition;
  intervalType : IntervalType.t;
  startSide : Side;
  endSide : Side;
  propertyManager : option PropertiesManager;
  properties : PropertySet
}.

(** The constructor: [props], when given, are added to the fresh map of
    [#props]; the sides default to [Side.Before]. *)
Definition new (client : Client) (id label : string)
    (start end_ : LocalReferencePosition) (intervalType : IntervalType.t)
    (props : option PropertySet) (startSide endSide : option Side) : t :=
  {| client := client;
     id := id;
     label := label;
     start := start;
     end_ := end_;
     intervalType := intervalType;
     startSide := default Before startSide;
     endSide := default Before endSide;
     propertyManager := None;
     properties := match props with
                   | Some props => addProperties ∅ props
                   | None => ∅
                   end |}.

(** Modelled from the spec: [copyPropertiesAndManager(source, destination)]
    of the merge tree, which copies the property map and its change
    manager to the new instance. *)
Definition copyPropertiesAndManager (source destination : t) : t :=
  {| client := client destination;
     id := id destination;
     label := label destination;
     start := start destination;
     end_ := end_ destination;
     intervalType := intervalType destination;
     startSide := startSide destination;
     endSide := endSide destination;
     propertyManager := propertyManager source;
     properties := properties source |}.

Section Methods.

Context `{UG : UuidGenerator} `{MT : MergeTree}.

Definition stickiness (this : t) : IntervalStickiness :=
  computeStickinessFromSide
    (endpointType_of (getSegment (start this))) (startSide this)
    (endpointType_of (getSegment (end_ this))) (endSide this).

Definition serializeDelta (this : t) (props : option PropertySet)
    (includeEndpoints : bool) : SerializedIntervalDelta :=
  let startPosition :=
    if includeEndpoints
    then Some (default (PNum (localReferencePositionToPosition (client this) (start this)))
                 (endpointType_of (getSegment (start this))))
    else None in
  let endPosition :=
    if includeEndpoints
    then Some (default (PNum (localReferencePositionToPosition (client this) (end_ this)))
                 (endpointType_of (getSegment (end_ this))))
    else None in
  {| ser_end := endPosition;
     ser_intervalType := intervalType this;
     ser_sequenceNumber := getCurrentSeq (client this);
     ser_start := startPosition;
     ser_stickiness := Some (stickiness this);
     ser_startSide := if includeEndpoints then Some (startSide this) else None;
     ser_endSide := if includeEndpoints then Some (endSide this) else None;
     ser_properties :=
       Some (<[reservedRangeLabelsKey := VArr [VStr (label this)]]>
               (<[reservedIntervalIdKey := VStr (id this)]> (default ∅ props))) |}.

Definition serialize (this : t) : SerializedIntervalDelta :=
  serializeDelta this (Some (properties this)) true.

Definition clone (this : t) : t :=
  new (client this) (id this) (label this) (start this) (end_ this)
    (intervalType this) (Some (properties this))
    (Some (startSide this)) (Some (endSide this)).

Definition getIntervalId (this : t) : string := id this.

Definition compareStart (this b : t) : Z :=
  let dist := compareReferencePositions (start this) (start b) in
  if dist =? 0 then compareSides (startSide this) (startSide b) else dist.

Definition compareEnd (this b : t) : Z :=
  let dist := compareReferencePositions (end_ this) (end_ b) in
  if dist =? 0 then compareSides (endSide b) (endSide this) else dist.

Definition compare (this b : t) : Z :=
  let startResult := compareStart this b in
  if startResult =? 0 then
    let endResult := compareEnd this b in
    if endResult =? 0 then
      let thisId := getIntervalId this in
      if truthy_string thisId then
        let bId := getIntervalId b in
        if truthy_string bId then
          if js_string_gt thisId bId then 1
          else if js_string_lt thisId bId then -1 else 0
        else 0
      else 0
    else endResult
  else startResult.

Definition overlaps (this b : t) : bool :=
  (compareReferencePositions (start this) (end_ b) <=? 0)
  && (compareReferencePositions (end_ this) (start b) >=? 0).

Definition union (this b : t) : M t :=
  let newStart := minReferencePosition (start this) (start b) in
  let newEnd := maxReferencePosition (end_ this) (end_ b) in
  let startSide' :=
    if same_object (start this) (start b)
    then minSide (startSide this) (startSide b)
    else if same_object (start this) newStart
         then startSide this else startSide b in
  let endSide' :=
    if same_object (end_ this) (end_ b)
    then maxSide (endSide this) (endSide b)
    else if same_object (end_ this) newEnd
         then endSide this else endSide b in
  newId ← uuid;
  mret (new (client this) newId (label this) newStart newEnd
          (intervalType this) None (Some startSide') (Some endSide')).

Definition overlapsPos (this : t) (bstart bend : Z) : bool :=
  let startPos := localReferencePositionToPosition (client this) (start this) in
  let endPos := localReferencePositionToPosition (client this) (end_ this) in
  (endPos >? bstart) && (startPos <? bend).

(** The local function [getRefType] of [modify]. *)
Definition getRefType (op : option ISequencedDocumentMessage) (baseType : Z) : Z :=
  match op with
  | None =>
      js_or (js_and baseType (js_not ReferenceType.SlideOnRemove))
        ReferenceType.StayOnRemove
  | Some _ => baseType
  end.

Definition copy_ref_properties (old new : LocalReferencePosition)
  : LocalReferencePosition :=
  match lref_properties old with
  | Some props => lref_addProperties new props
  | None => new
  end.

Definition modify (this : t) (label : string)
    (start end_ : option SequencePlace)
    (op : option ISequencedDocumentMessage) (localSeq : option Z)
    (useNewSlidingBehavior : bool) : M t :=
  let pas := endpointPosAndSide start end_ in
  let startSegment := getSegment (SequenceIntervalClass.start this) in
  let endSegment := getSegment (SequenceIntervalClass.end_ this) in
  let stickiness :=
    computeStickinessFromSide
      (match pas_startPos pas with
       | Some p => Some p
       | None => endpointType_of startSegment
       end)
      (default (startSide this) (pas_startSide pas))
      (match pas_endPos pas with
       | Some p => Some p
       | None => endpointType_of endSegment
       end)
      (default (endSide this) (pas_endSide pas)) in
  startRef ←
    match pas_startPos pas with
    | Some startPos =>
        ref ← createPositionReference (client this) startPos
                (getRefType op (refType (SequenceIntervalClass.start this)))
                op None localSeq
                (Some (startReferenceSlidingPreference stickiness))
                (SlidingPreference_eqb
                   (startReferenceSlidingPreference stickiness) BACKWARD)
                useNewSlidingBehavior None;
        mret (copy_ref_properties (SequenceIntervalClass.start this) ref)
    | None => mret (SequenceIntervalClass.start this)
    end;
  endRef ←
    match pas_endPos pas with
    | Some endPos =>
        ref ← createPositionReference (client this) endPos
                (getRefType op (refType (SequenceIntervalClass.end_ this)))
                op None localSeq
                (Some (endReferenceSlidingPreference stickiness))
                (SlidingPreference_eqb
                   (endReferenceSlidingPreference stickiness) FORWARD)
                useNewSlidingBehavior None;
        mret (copy_ref_properties (SequenceIntervalClass.end_ this) ref)
    | None => mret (SequenceIntervalClass.end_ this)
    end;
  let newInterval :=
    new (client this) (id this) (SequenceIntervalClass.label this)
      startRef endRef (intervalType this) None
      (Some (default (startSide this) (pas_startSide pas)))
      (Some (default (endSide this) (pas_endSide pas))) in
  mret (copyPropertiesAndManager this newInterval).

End Methods.

End SequenceIntervalClass.

(** ** The interval factory *)

Section Factory.

Context `{UG : UuidGenerator} `{MT : MergeTree}.

(** [op ?? fromSnapshot] as a condition: a message is an object and so
    truthy; without one the flag decides. *)
Definition op_or_fromSnapshot (op : option ISequencedDocumentMessage)
    (fromSnapshot : option bool) : bool :=
  match op with
  | Some _ => true
  | None => truthy_boolean fromSnapshot
  end.

(** The reference types [createSequenceInterval] chooses for the two
    endpoints, begin first. *)
Definition endpointRefTypes (intervalType : IntervalType.t)
    (op : option ISequencedDocumentMessage) (fromSnapshot : option bool) : Z * Z :=
  let beginRefType := ReferenceType.RangeBegin in
  let endRefType := ReferenceType.RangeEnd in
  if IntervalType.eqb intervalType IntervalType.Transient then
    (ReferenceType.Transient, ReferenceType.Transient)
  else if op_or_fromSnapshot op fromSnapshot then
    (js_or beginRefType ReferenceType.SlideOnRemove,
     js_or endRefType ReferenceType.SlideOnRemove)
  else
    (js_or beginRefType ReferenceType.StayOnRemove,
     js_or endRefType ReferenceType.StayOnRemove).

(** [{ ...props, intervalId: undefined, referenceRangeLabels: undefined }] *)
Definition reserved_overridden (props : PropertySet) : PropertySet :=
  <[reservedRangeLabelsKey := VUndefined]>
    (<[reservedIntervalIdKey := VUndefined]> props).

Definition createSequenceInterval (label id : string)
    (start end_ : option SequencePlace) (client : Client)
    (intervalType : IntervalType.t) (op : option ISequencedDocumentMessage)
    (fromSnapshot : option bool) (useNewSlidingBehavior : bool)
    (props : option PropertySet) (rollback : option bool)
  : M SequenceIntervalClass.t :=
  let pas := endpointPosAndSide
               (Some (default (Plain (PEndpoint EStart)) start))
               (Some (default (Plain (PEndpoint EEnd)) end_)) in
  match pas_startPos pas, pas_endPos pas, pas_startSide pas, pas_endSide pas with
  | Some startPos, Some endPos, Some startSide, Some endSide =>
      let stickiness :=
        computeStickinessFromSide (Some startPos) startSide (Some endPos) endSide in
      let '(beginRefType, endRefType) :=
        endpointRefTypes intervalType op fromSnapshot in
      startLref ← createPositionReference client startPos beginRefType op
                    fromSnapshot None
                    (Some (startReferenceSlidingPreference stickiness))
                    (SlidingPreference_eqb
                       (startReferenceSlidingPreference stickiness) BACKWARD)
                    useNewSlidingBehavior rollback;
      endLref ← createPositionReference client endPos endRefType op
                  fromSnapshot None
                  (Some (endReferenceSlidingPreference stickiness))
                  (SlidingPreference_eqb
                     (endReferenceSlidingPreference stickiness) FORWARD)
                  useNewSlidingBehavior rollback;
      let rangeProp : PropertySet :=
        {[ reservedRangeLabelsKey := VArr [VStr label] ]} in
      let startLref := lref_addProperties startLref rangeProp in
      let endLref := lref_addProperties endLref rangeProp in
      mret (SequenceIntervalClass.new client id label startLref endLref
              intervalType (reserved_overridden <$> props)
              (Some startSide) (Some endSide))
  | _, _, _, _ => throw (AssertionError 0x794)
  end.

Definition createTransientInterval (start end_ : option SequencePlace)
    (client : Client) : M SequenceIntervalClass.t :=
  newId ← uuid;
  createSequenceInterval "transient" newId start end_ client
    IntervalType.Transient None None false None None.

End Factory.

(** ** A small merge tree for the worked examples

    Modelled from the spec: a merge tree to run the examples on, the merge
    tree itself being outside the sources at hand.  The sequence is held in
    one text segment of length [len], so that a reference on it stands at
    its offset; ["start"] is just before position 0 and ["end"] is at
    [len].  The functions follow what the merge tree and intervalUtils
    document for them. *)

Module Flat.

Definition position (len : Z) (r : LocalReferencePosition) : Z :=
  match getSegment r with
  | Some (EndpointSegment EStart) => -1
  | Some (EndpointSegment EEnd) => len
  | _ => default 0 (getOffset r)
  end.

Definition compareReferencePositions (len : Z) (a b : LocalReferencePosition) : Z :=
  position len a - position len b.

Definition minReferencePosition (len : Z) (a b : LocalReferencePosition) :=
  if compareReferencePositions len a b <? 0 then a else b.

Definition maxReferencePosition (len : Z) (a b : LocalReferencePosition) :=
  if compareReferencePositions len a b >? 0 then a else b.

Definition computeStickinessFromSide (startPos : option Pos) (startSide : Side)
    (endPos : option Pos) (endSide : Side) : IntervalStickiness :=
  let sticksStart :=
    match startSide, startPos with
    | After, _ | _, Some (PEndpoint EStart) => true
    | _, _ => false
    end in
  let sticksEnd :=
    match endSide, endPos with
    | Before, _ | _, Some (PEndpoint EEnd) => true
    | _, _ => false
    end in
  match sticksStart, sticksEnd with
  | false, false => NONE
  | true, false => START
  | false, true => END
  | true, true => FULL
  end.

Definition startReferenceSlidingPreference (s : IntervalStickiness) :=
  match s with
  | START | FULL => BACKWARD
  | _ => FORWARD
  end.

Definition endReferenceSlidingPreference (s : IntervalStickiness) :=
  match s with
  | END | FULL => FORWARD
  | _ => BACKWARD
  end.

(** No segment of the flat tree is ever removed, so nothing slides. *)
Definition getSlideToSegoff (segoff : Segoff)
    (slidingPreference : option SlidingPreference)
    (useNewSlidingBehavior : bool) : Segoff := segoff.

Definition mergeTree (len : Z) : MergeTree :=
  Build_MergeTree (compareReferencePositions len) (minReferencePosition len)
    (maxReferencePosition len) getSlideToSegoff computeStickinessFromSide
    startReferenceSlidingPreference endReferenceSlidingPreference.

Definition client (len : Z) : Client :=
  {| getContainingSegment := fun pos _ _ =>
       if (0 <=? pos) && (pos <? len)
       then SegoffAt (Some (TextSegment 0)) (Some pos)
       else SegoffAt None None;
     localReferencePositionToPosition := position len;
     getCurrentSeq := 0;
     collaborating := false |}.

(** A uuid generator that draws an id outside the ids it accounts for. *)
Definition uuids : UuidGenerator :=
  {| gen := gset string;
     uuid_draw := fun g => (fresh g, {[ fresh g ]} ∪ g);
     taken := fun g => g;
     uuid_draw_fresh := fun g => is_fresh g;
     uuid_draw_taken := fun g => eq_refl |}.

(** The world before anything is allocated, with [ids] in use. *)
Definition world (ids : gset string) : @World uuids :=
  @mkWorld uuids 0%nat ids.

(** A reference at offset [pos] of the text segment. *)
Definition ref (oid : nat) (refType : Z) (pos : Z) : LocalReferencePosition :=
  {| lref_oid := oid;
     refType := refType;
     slidingPreference := None;
     canSlideToEndpoint := None;
     getSegment := Some (TextSegment 0);
     getOffset := Some pos;
     lref_properties := None |}.

End Flat.

(** The record [{start: 3, end: 7, properties: {}}] of a legacy client. *)
Definition legacy_3_7 : SerializedIntervalDelta :=
  {| ser_start := Some (PNum 3);
     ser_end := Some (PNum 7);
     ser_intervalType := IntervalType.SlideOnRemove;
     ser_sequenceNumber := 0;
     ser_stickiness := None;
     ser_startSide := None;
     ser_endSide := None;
     ser_properties := Some ∅ |}.

(** ** Vocabulary of the statements *)

(** No segment was found for a reference: the segoff is [undefined], or it
    has no segment. *)
Definition segment_undefined (segoff : Segoff) : bool :=
  match segoff with
  | SegoffAt None _ | SegoffUndefined => true
  | SegoffEndpoint _ | SegoffAt (Some _) _ => false
  end.

(** A request that carries nothing that allows a reference without a
    segment: no op, no local sequence number that counts (an absent one or
    0), not from a snapshot, not a rollback, not transient. *)
Definition carries_no_origin (refType : Z)
    (op : option ISequencedDocumentMessage) (localSeq : option Z)
    (fromSnapshot rollback : option bool) : Prop :=
  op = None
  /\ (localSeq = None \/ localSeq = Some 0)
  /\ fromSnapshot <> Some true
  /\ rollback <> Some true
  /\ refTypeIncludesFlag refType ReferenceType.Transient = false.

(** The detached reference: a sliding preference and a reference type on
    a new object, and nothing else. *)
Definition detachedReference (oid : nat)
    (slidingPreference : option SlidingPreference) (refType : Z)
  : LocalReferencePosition :=
  {| lref_oid := oid;
     refType := refType;
     slidingPreference := slidingPreference;
     canSlideToEndpoint := None;
     getSegment := None;
     getOffset := None;
     lref_properties := None |}.

(** The interval A of the worked examples, [(0 Before, 5 Before)] with
    label "x" on the eleven characters of "hello world", created locally
    and not yet acknowledged. *)
Definition interval_A : SequenceIntervalClass.t :=
  SequenceIntervalClass.new (Flat.client 11) "A" "x"
    (Flat.ref 0 144 0) (Flat.ref 1 160 5) IntervalType.SlideOnRemove None
    (Some Before) (Some Before).

(** The world once the two endpoints of A exist. *)
Definition world_after_A : @World Flat.uuids :=
  @mkWorld Flat.uuids 2%nat {[ "A" ]}.

(** The sign of the lexicographic order of two strings, as the
    [thisId > bId ? 1 : thisId < bId ? -1 : 0] of [compare] computes it. *)
Definition compare_strings (a b : string) : Z :=
  if js_string_gt a b then 1 else if js_string_lt a b then -1 else 0.

(** Comparators in the JavaScript manner, on the elements that satisfy [P]:
    [lex f g] orders by [f] and breaks its ties by [g]. *)
Section Comparators.

Context {T : Type} (P : T -> Prop).

Definition lex (f g : T -> T -> Z) (a b : T) : Z :=
  if f a b =? 0 then g a b else f a b.

Definition antisymmetric_on (f : T -> T -> Z) : Prop :=
  forall a b, P a -> P b -> f a b = - f b a.

Definition transitive_on (f : T -> T -> Z) : Prop :=
  forall a b c, P a -> P b -> P c -> f a b <= 0 -> f b c <= 0 -> f a c <= 0.

End Comparators.

(** An interval whose id is not the empty string. *)
Definition has_id (i : SequenceIntervalClass.t) : Prop :=
  SequenceIntervalClass.id i <> "".

(** The interval B of the worked examples, [(3 Before, 7 Before)] with
    label "y". *)
Definition interval_B : SequenceIntervalClass.t :=
  SequenceIntervalClass.new (Flat.client 11) "B" "y"
    (Flat.ref 2 144 3) (Flat.ref 3 160 7) IntervalType.SlideOnRemove None
    (Some Before) (Some Before).

Definition Side_is_before (s : Side) : bool :=
  match s with Before => true | After => false end.

(** Two intervals that share their start reference, the first on side
    [Before] and the second on side [After]: [(4 Before, 6 Before)] and
    [(4 After, 8 Before)]. *)
Definition shared_start : LocalReferencePosition := Flat.ref 4 144 4.

Definition interval_4_6 : SequenceIntervalClass.t :=
  SequenceIntervalClass.new (Flat.client 11) "C" "x"
    shared_start (Flat.ref 5 160 6) IntervalType.SlideOnRemove None
    (Some Before) (Some Before).

Definition interval_4_8 : SequenceIntervalClass.t :=
  SequenceIntervalClass.new (Flat.client 11) "D" "y"
    shared_start (Flat.ref 6 160 8) IntervalType.SlideOnRemove None
    (Some After) (Some Before).

(** An interval that starts where A ends, on the far side of the
    character: [(5 After, 7 Before)]. *)
Definition interval_5_7 : SequenceIntervalClass.t :=
  SequenceIntervalClass.new (Flat.client 11) "E" "y"
    (Flat.ref 7 144 5) (Flat.ref 8 160 7) IntervalType.SlideOnRemove None
    (Some After) (Some Before).



(** The five comparisons that [compare] goes through, in its order. *)
Section OrderKeys.

Context `{MT : MergeTree}.

Definition byStart (a b : SequenceIntervalClass.t) : Z :=
  compareReferencePositions (SequenceIntervalClass.start a)
    (SequenceIntervalClass.start b).

Definition byStartSide (a b : SequenceIntervalClass.t) : Z :=
  compareSides (SequenceIntervalClass.startSide a) (SequenceIntervalClass.startSide b).

Definition byEnd (a b : SequenceIntervalClass.t) : Z :=
  compareReferencePositions (SequenceIntervalClass.end_ a)
    (SequenceIntervalClass.end_ b).

Definition byEndSide (a b : SequenceIntervalClass.t) : Z :=
  compareSides (SequenceIntervalClass.endSide b) (SequenceIntervalClass.endSide a).

Definition byId (a b : SequenceIntervalClass.t) : Z :=
  compare_strings (SequenceIntervalClass.id a) (SequenceIntervalClass.id b).

End OrderKeys.

(** ** Log levels (logger.ts) *)

Module LogLevel.
Definition verbose : Z := 10.
Definition default : Z := 20.
Definition error : Z := 30.
End LogLevel.

Module ExtendedLogLevel.
Definition verbose : Z := 10.
Definition default : Z := 20.
Definition essential : Z := 25.
Definition error : Z := 30.
End ExtendedLogLevel.

(** The type [LogLevel]: one of the values of the object [LogLevel]. *)
Definition is_LogLevel (level : Z) : Prop :=
  level = LogLevel.verbose \/ level = LogLevel.default \/ level = LogLevel.error.

(** The type [ExtendedLogLevel]. *)
Definition is_ExtendedLogLevel (level : Z) : Prop :=
  level = ExtendedLogLevel.verbose \/ level = ExtendedLogLevel.default
  \/ level = ExtendedLogLevel.essential \/ level = ExtendedLogLevel.error.

Definition normalizeLogLevel (level : Z) : Z :=
  if level =? ExtendedLogLevel.essential then LogLevel.default else level.

Definition shouldLogAtLevel (level minLevel : Z) : bool :=
  level >=? minLevel.

Definition isExtendedLogLevel (level : Z) : bool :=
  level =? ExtendedLogLevel.essential.

(** ** Position change listeners of an interval

    [addPositionChangeListeners] and [removePositionChangeListeners] write
    the private field [callbacks] of the interval and the field
    [callbacks] of its two references.  The interval's field is threaded
    beside the interval; the references' fields are a store keyed by the
    identity of the reference, so that a reference shared by two intervals
    is one entry. *)
Section Listeners.

(** The functions [() => void] handed in as listeners. *)
Context {Handler : Type}.

(** [ref.callbacks]: an object with an optional [beforeSlide] and an
    optional [afterSlide]. *)
Record SlideCallbacks : Type := mkSlideCallbacks {
  beforeSlide : option Handler;
  afterSlide : option Handler
}.

Record ListenerState : Type := mkListenerState {
  callbacks : option (Handler * Handler);
  ref_callbacks : gmap nat SlideCallbacks
}.

(** [(ref.callbacks ??= {})] followed by the two assignments to it. *)
Definition set_slide_callbacks (ref : LocalReferencePosition)
    (beforePositionChange afterPositionChange : Handler)
    (store : gmap nat SlideCallbacks) : gmap nat SlideCallbacks :=
  <[lref_oid ref := {| beforeSlide := Some beforePositionChange;
                       afterSlide := Some afterPositionChange |}]> store.

Definition addPositionChangeListeners (this : SequenceIntervalClass.t)
    (beforePositionChange afterPositionChange : Handler)
    (st : ListenerState) : ListenerState :=
  match callbacks st with
  | None =>
      {| callbacks := Some (beforePositionChange, afterPositionChange);
         ref_callbacks :=
           set_slide_callbacks (SequenceIntervalClass.end_ this)
             beforePositionChange afterPositionChange
             (set_slide_callbacks (SequenceIntervalClass.start this)
                beforePositionChange afterPositionChange (ref_callbacks st)) |}
  | Some _ => st
  end.

Definition removePositionChangeListeners (this : SequenceIntervalClass.t)
    (st : ListenerState) : ListenerState :=
  match callbacks st with
  | Some _ =>
      {| callbacks := None;
         ref_callbacks :=
           delete (lref_oid (SequenceIntervalClass.end_ this))
             (delete (lref_oid (SequenceIntervalClass.start this))
                (ref_callbacks st)) |}
  | None => st
  end.

End Listeners.

(** Whether a position given to the factory without an op finds a place
    to anchor: a sentinel always does, a number when the client finds its
    segment. *)
Definition position_resolves (client : Client) (localSeq : option Z) (pos : Pos)
  : bool :=
  match pos with
  | PEndpoint _ => true
  | PNum n => negb (segment_undefined (getContainingSegment client n None localSeq))
  end.

(** The reference that [createPositionReferenceFromSegoff] makes when it
    makes one: on the endpoint segment, on the segment found, or detached. *)
Definition reference_at (oid : nat) (segoff : Segoff) (refType : Z)
    (slidingPreference : option SlidingPreference)
    (canSlideToEndpoint : option bool) : LocalReferencePosition :=
  match segoff with
  | SegoffEndpoint e =>
      {| lref_oid := oid; refType := refType;
         slidingPreference := slidingPreference;
         canSlideToEndpoint := canSlideToEndpoint;
         getSegment := Some (EndpointSegment e); getOffset := None;
         lref_properties := None |}
  | SegoffAt (Some segment) offset =>
      {| lref_oid := oid; refType := refType;
         slidingPreference := slidingPreference;
         canSlideToEndpoint := canSlideToEndpoint;
         getSegment := Some segment; getOffset := offset;
         lref_properties := None |}
  | SegoffAt None _ | SegoffUndefined =>
      detachedReference oid slidingPreference refType
  end.

(** The side of a place, [Before] for a plain position and for an absent
    place (whose default is a plain sentinel). *)
Definition place_side_or_before (place : option SequencePlace) : Side :=
  match place with
  | Some (Interior _ side) => side
  | _ => Before
  end.

(** The position of a place, with the default of [createSequenceInterval]
    for an absent place. *)
Definition place_pos_or (fallback : Endpoint) (place : option SequencePlace) : Pos :=
  match place with
  | Some (Plain pos) => pos
  | Some (Interior pos _) => PNum pos
  | None => PEndpoint fallback
  end.

(** The world after one allocation. *)
Definition allocated `{UG : UuidGenerator} (w : World) : World :=
  {| next_oid := S (next_oid w); uuid_state := uuid_state w |}.

(** The guard of [createPositionReferenceFromSegoff] under which a
    reference without a segment is refused. *)
Definition must_have_segment (refType : Z)
    (op : option ISequencedDocumentMessage) (localSeq : option Z)
    (fromSnapshot rollback : option bool) : bool :=
  negb (is_defined op) && negb (truthy_number localSeq)
  && negb (truthy_boolean fromSnapshot)
  && negb (refTypeIncludesFlag refType ReferenceType.Transient)
  && negb (truthy_boolean rollback).

(** The segoff that [createPositionReference] hands on for a position. *)
Definition segoff_for `{MT : MergeTree} (client : Client) (pos : Pos)
    (op : option ISequencedDocumentMessage) (localSeq : option Z)
    (slidingPreference : option SlidingPreference)
    (useNewSlidingBehavior : bool) : Segoff :=
  match pos with
  | PEndpoint e => SegoffEndpoint e
  | PNum n =>
      match op with
      | Some o =>
          getSlideToSegoff
            (getContainingSegment client n
               (Some (referenceSequenceNumber o, clientId o)) None)
            slidingPreference useNewSlidingBehavior
      | None => getContainingSegment client n None localSeq
      end
  end.

(** The assertion of [createPositionReference], as the code of the error
    it raises when it fails. *)
Definition failed_assertion (refType : Z)
    (op : option ISequencedDocumentMessage) (fromSnapshot : option bool)
  : option Z :=
  match op with
  | Some _ =>
      if refTypeIncludesFlag refType ReferenceType.SlideOnRemove
      then None else Some 0x2f5
  | None =>
      if negb (refTypeIncludesFlag refType ReferenceType.SlideOnRemove)
         || truthy_boolean fromSnapshot
      then None else Some 0x2f6
  end.

(** A sequenced op of a remote client, for the worked examples. *)
Definition remote_op : ISequencedDocumentMessage :=
  {| sequenceNumber := 7; minimumSequenceNumber := 3;
     referenceSequenceNumber := 6; clientId := Some "remote" |}.

(** An endpoint that [modify] can replace under an op: one for which no
    place is given, or whose reference is SlideOnRemove already. *)
Definition replaceable_under_op (place : option SequencePlace)
    (old : LocalReferencePosition) : bool :=
  match place with
  | None => true
  | Some _ => refTypeIncludesFlag (refType old) ReferenceType.SlideOnRemove
  end.

(** The stickiness that [modify] computes from the places it is given and
    the interval it modifies. *)
Definition modify_stickiness `{MT : MergeTree} (this : SequenceIntervalClass.t)
    (start end_ : option SequencePlace) : IntervalStickiness :=
  computeStickinessFromSide
    (match place_pos start with
     | Some p => Some p
     | None => endpointType_of (getSegment (SequenceIntervalClass.start this))
     end)
    (default (SequenceIntervalClass.startSide this) (place_side start))
    (match place_pos end_ with
     | Some p => Some p
     | None => endpointType_of (getSegment (SequenceIntervalClass.end_ this))
     end)
    (default (SequenceIntervalClass.endSide this) (place_side end_)).

(** The interval A once its creation is acknowledged: its references are
    SlideOnRemove. *)
Definition interval_A_acked : SequenceIntervalClass.t :=
  SequenceIntervalClass.new (Flat.client 11) "A" "x"
    (Flat.ref 0 80 0) (Flat.ref 1 96 5) IntervalType.SlideOnRemove None
    (Some Before) (Some Before).

(** ** Documentation of type-like API items (transformApiTypeLike)

    [ApiItemKind] is a string enumeration of the API extractor model: the
    kind of an item is the string of its name. *)

Module ApiItemKind.
Definition CallSignature : string := "CallSignature".
Definition Constructor : string := "Constructor".
Definition ConstructSignature : string := "ConstructSignature".
Definition IndexSignature : string := "IndexSignature".
Definition Method : string := "Method".
Definition MethodSignature : string := "MethodSignature".
Definition Property : string := "Property".
Definition PropertySignature : string := "PropertySignature".
End ApiItemKind.

(** The five lists that the loop of [transformApiTypeLike] fills. *)
Inductive MemberList : Type :=
| Constructors
| AllProperties
| CallSignatures
| IndexSignatures
| AllMethods.

Definition MemberList_eqb (a b : MemberList) : bool :=
  match a, b with
  | Constructors, Constructors | AllProperties, AllProperties
  | CallSignatures, CallSignatures | IndexSignatures, IndexSignatures
  | AllMethods, AllMethods => true
  | _, _ => false
  end.

(** The [switch (childKind)] of the loop: the list a child is pushed on,
    or none for the [default] case. *)
Definition member_list_of (childKind : string) : option MemberList :=
  if String.eqb childKind ApiItemKind.Constructor
     || String.eqb childKind ApiItemKind.ConstructSignature
  then Some Constructors
  else if String.eqb childKind ApiItemKind.Property
          || String.eqb childKind ApiItemKind.PropertySignature
  then Some AllProperties
  else if String.eqb childKind ApiItemKind.CallSignature
  then Some CallSignatures
  else if String.eqb childKind ApiItemKind.IndexSignature
  then Some IndexSignatures
  else if String.eqb childKind ApiItemKind.Method
          || String.eqb childKind ApiItemKind.MethodSignature
  then Some AllMethods
  else None.

(** The double quote character of the diagnostics. *)
Definition double_quote : string := String (Ascii.ascii_of_nat 34) EmptyString.

Section TransformApiTypeLike.

(** The items, the sections and the configuration are those of the API
    documenter. *)
Context {ApiItem SectionNode Config ApiModifier : Type}.

Record MemberTable : Type := mkMemberTable {
  headingTitle : string;
  itemKind : string;
  items : list ApiItem;
  modifiersToOmit : list ApiModifier
}.

Record DetailsTable : Type := mkDetailsTable {
  heading_title : string;
  details_itemKind : string;
  details_items : list ApiItem
}.

(** What the transformation asks of the items and of the configuration,
    and the helpers it calls, kept abstract; [has_logger] says whether
    [config.logger] is there. *)
Class Documenter : Type := {
  getApiItemKind : ApiItem -> string;
  kind : ApiItem -> string;
  displayName : ApiItem -> string;
  isEventProperty : ApiItem -> bool;
  isStatic : ApiItem -> bool;
  getScopedMemberNameForDiagnostics : ApiItem -> string;
  ApiModifier_Static : ApiModifier;
  has_logger : Config -> bool;
  getFilteredMembers : ApiItem -> Config -> list ApiItem;
  createMemberTables : list MemberTable -> Config -> option (list SectionNode);
  createChildDetailsSection :
    list DetailsTable -> Config -> (ApiItem -> list SectionNode) ->
    option (list SectionNode);
  defaultSectionLayout :
    Config -> ApiItem -> list SectionNode -> Config -> list SectionNode
}.

Context `{D : Documenter}.

Record Accumulated : Type := mkAccumulated {
  constructors : list ApiItem;
  allProperties : list ApiItem;
  callSignatures : list ApiItem;
  indexSignatures : list ApiItem;
  allMethods : list ApiItem;
  logged_errors : list string
}.

Definition unsupported_kind_message (apiItem child : ApiItem) : string :=
  "Child item " +:+ double_quote +:+ displayName child +:+ double_quote
  +:+ " of " +:+ kind apiItem +:+ " " +:+ double_quote
  +:+ getScopedMemberNameForDiagnostics apiItem +:+ double_quote
  +:+ " is of unsupported API item kind: " +:+ double_quote
  +:+ getApiItemKind child +:+ double_quote.

(** One turn of the loop over the filtered children. *)
Definition accumulate_child (apiItem : ApiItem) (config : Config)
    (acc : Accumulated) (child : ApiItem) : Accumulated :=
  match member_list_of (getApiItemKind child) with
  | Some Constructors =>
      mkAccumulated (constructors acc ++ [child])%list (allProperties acc)
        (callSignatures acc) (indexSignatures acc) (allMethods acc)
        (logged_errors acc)
  | Some AllProperties =>
      mkAccumulated (constructors acc) (allProperties acc ++ [child])%list
        (callSignatures acc) (indexSignatures acc) (allMethods acc)
        (logged_errors acc)
  | Some CallSignatures =>
      mkAccumulated (constructors acc) (allProperties acc)
        (callSignatures acc ++ [child])%list (indexSignatures acc) (allMethods acc)
        (logged_errors acc)
  | Some IndexSignatures =>
      mkAccumulated (constructors acc) (allProperties acc)
        (callSignatures acc) (indexSignatures acc ++ [child])%list (allMethods acc)
        (logged_errors acc)
  | Some AllMethods =>
      mkAccumulated (constructors acc) (allProperties acc)
        (callSignatures acc) (indexSignatures acc) (allMethods acc ++ [child])%list
        (logged_errors acc)
  | None =>
      mkAccumulated (constructors acc) (allProperties acc)
        (callSignatures acc) (indexSignatures acc) (allMethods acc)
        (if has_logger config
         then (logged_errors acc ++ [unsupported_kind_message apiItem child])%list
         else logged_errors acc)
  end.

Definition accumulate (apiItem : ApiItem) (config : Config)
    (filteredChildren : list ApiItem) : Accumulated :=
  fold_left (accumulate_child apiItem config) filteredChildren
    (mkAccumulated [] [] [] [] [] []).

Definition standardProperties (acc : Accumulated) : list ApiItem :=
  List.filter (fun p => negb (isEventProperty p)) (allProperties acc).

Definition eventProperties (acc : Accumulated) : list ApiItem :=
  List.filter isEventProperty (allProperties acc).

(** The nine summary tables, in their order. *)
Definition memberTables (acc : Accumulated) : list MemberTable :=
  [ mkMemberTable "Constructors" ApiItemKind.Constructor (constructors acc) [];
    mkMemberTable "Static Events" ApiItemKind.Property
      (List.filter isStatic (eventProperties acc)) [ApiModifier_Static];
    mkMemberTable "Static Properties" ApiItemKind.Property
      (List.filter isStatic (standardProperties acc)) [ApiModifier_Static];
    mkMemberTable "Static Methods" ApiItemKind.Method
      (List.filter isStatic (allMethods acc)) [ApiModifier_Static];
    mkMemberTable "Events" ApiItemKind.Property
      (List.filter (fun p => negb (isStatic p)) (eventProperties acc))
      [ApiModifier_Static];
    mkMemberTable "Properties" ApiItemKind.Property
      (List.filter (fun p => negb (isStatic p)) (standardProperties acc))
      [ApiModifier_Static];
    mkMemberTable "Methods" ApiItemKind.Method
      (List.filter (fun m => negb (isStatic m)) (allMethods acc))
      [ApiModifier_Static];
    mkMemberTable "Call Signatures" ApiItemKind.CallSignature
      (callSignatures acc) [];
    mkMemberTable "Index Signatures" ApiItemKind.IndexSignature
      (indexSignatures acc) [] ].

(** The six details sections, in their order. *)
Definition detailsTables (acc : Accumulated) : list DetailsTable :=
  [ mkDetailsTable "Constructor Details" ApiItemKind.Constructor (constructors acc);
    mkDetailsTable "Event Details" ApiItemKind.Property (eventProperties acc);
    mkDetailsTable "Property Details" ApiItemKind.Property (standardProperties acc);
    mkDetailsTable "Method Details" ApiItemKind.MethodSignature (allMethods acc);
    mkDetailsTable "Call Signature Details" ApiItemKind.CallSignature
      (callSignatures acc);
    mkDetailsTable "Index Signature Details" ApiItemKind.IndexSignature
      (indexSignatures acc) ].

(** [transformApiTypeLike], with the errors it logs. *)
Definition transformApiTypeLike (apiItem : ApiItem) (config : Config)
    (generateChildContent : ApiItem -> list SectionNode)
  : list SectionNode * list string :=
  let filteredChildren := getFilteredMembers apiItem config in
  if (0 <? length filteredChildren)%nat then
    let acc := accumulate apiItem config filteredChildren in
    let sections :=
      match createMemberTables (memberTables acc) config with
      | Some memberTableSections => memberTableSections
      | None => []
      end in
    let sections :=
      match createChildDetailsSection (detailsTables acc) config
              generateChildContent with
      | Some detailsSections =>
          if (0 <? length detailsSections)%nat
          then (sections ++ detailsSections)%list else sections
      | None => sections
      end in
    (defaultSectionLayout config apiItem sections config, logged_errors acc)
  else (defaultSectionLayout config apiItem [] config, []).

(** The children of a kind that the transformation documents, and those
    pushed on one given list. *)
Definition supported_child (child : ApiItem) : bool :=
  match member_list_of (getApiItemKind child) with
  | Some _ => true
  | None => false
  end.

Definition pushed_on (l : MemberList) (child : ApiItem) : bool :=
  match member_list_of (getApiItemKind child) with
  | Some l' => MemberList_eqb l l'
  | None => false
  end.

End TransformApiTypeLike.

(** ** A string of a given size (containerRuntime.spec.ts) *)

(** [elements.join(separator)], a hole of the array counting as the empty
    string. *)
Fixpoint js_join (separator : string) (elements : list string) : string :=
  match elements with
  | [] => ""
  | [x] => x
  | x :: rest => x +:+ separator +:+ js_join separator rest
  end.

(** The two [RangeError]s of the function: [new Array(n)] throws one
    unless [n] is an array length, and [join] throws one when its result
    would be longer than the longest string of the engine. *)
Inductive RangeError : Type :=
| InvalidArrayLength
| InvalidStringLength.

(** [generateStringOfSize(sizeInBytes)], for an integer size, on an engine
    whose longest string has [maxStringLength] characters (2^29 - 24 on a
    64-bit V8, 2^53 - 1 at most in ECMAScript).  The array has
    [sizeInBytes + 1] holes, so the string joined from it has as many
    characters as there are separators between them. *)
Definition generateStringOfSize (maxStringLength : Z) (sizeInBytes : Z)
  : RangeError + string :=
  let n := sizeInBytes + 1 in
  if (n <? 0) || (n >? 4294967295)
  then inl InvalidArrayLength
  else if Z.max 0 (n - 1) >? maxStringLength
  then inl InvalidStringLength
  else inr (js_join "0" (repeat "" (Z.to_nat n))).

(** * Properties *)

(** ** Reading serialized properties *)

Lemma js_get_absent (o : PropertySet) (k : string) :
  o !! k = None -> js_get o k = VUndefined.
Proof. intros H. unfold js_get. rewrite H. reflexivity. Qed.

(** C4, as the code has it: when the properties of a serialized record
    lack the key "intervalId", the id is the string "legacy" + start + "-" +
    end; when they also lack "referenceRangeLabels", the labels come back
    [undefined] (no default is put in their place). *)
Theorem getSerializedProperties_legacy_id (s : SerializedIntervalDelta) :
  default ∅ (ser_properties s) !! reservedIntervalIdKey = None ->
  sp_id (getSerializedProperties s)
  = VStr ("legacy" +:+ template_of_pos (ser_start s) +:+ "-"
            +:+ template_of_pos (ser_end s))
  /\ (default ∅ (ser_properties s) !! reservedRangeLabelsKey = None ->
      sp_labels (getSerializedProperties s) = VUndefined).
Proof.
  intros Hid. unfold getSerializedProperties. cbn [sp_id sp_labels]. split.
  - rewrite (js_get_absent _ _ Hid). reflexivity.
  - intros Hlabels. apply js_get_absent, Hlabels.
Qed.

Lemma getSerializedProperties_legacy_id_witness :
  sp_id (getSerializedProperties legacy_3_7) = VStr "legacy3-7"
  /\ sp_labels (getSerializedProperties legacy_3_7) = VUndefined.
Proof.
  destruct (getSerializedProperties_legacy_id legacy_3_7 eq_refl) as [Hid Hlabels].
  split.
  - rewrite Hid. reflexivity.
  - apply Hlabels. reflexivity.
Defined.

(** C4 as stated fails: for [{start: 3, end: 7, properties: {}}] the labels
    are [undefined], not the empty list. *)
Lemma getSerializedProperties_labels_not_empty_list :
  ~ (forall s : SerializedIntervalDelta,
       default ∅ (ser_properties s) !! reservedIntervalIdKey = None ->
       default ∅ (ser_properties s) !! reservedRangeLabelsKey = None ->
       sp_labels (getSerializedProperties s) = VArr []).
Proof.
  intros H. specialize (H legacy_3_7 eq_refl eq_refl). discriminate H.
Qed.

(** ** Reference types as bit sets *)

Lemma toInt32_testbit (z i : Z) :
  0 <= i < 32 -> Z.testbit (toInt32 z) i = Z.testbit z i.
Proof.
  intros Hi.
  rewrite <- (Z.mod_pow2_bits_low (toInt32 z) 32 i) by lia.
  rewrite <- (Z.mod_pow2_bits_low z 32 i) by lia.
  f_equal. unfold toInt32.
  rewrite Zminus_mod, Zmod_mod, <- Zminus_mod.
  f_equal. lia.
Qed.

(** A flag is one bit below the sign bit. *)
Lemma refTypeIncludesFlag_testbit (refType k : Z) :
  0 <= k < 31 ->
  refTypeIncludesFlag refType (2 ^ k) = Z.testbit refType k.
Proof.
  intros Hk. unfold refTypeIncludesFlag, js_and.
  assert (Hflag : toInt32 (2 ^ k) = 2 ^ k).
  { unfold toInt32.
    assert (0 < 2 ^ k) by (apply Z.pow_pos_nonneg; lia).
    assert (2 ^ k < 2 ^ 31) by (apply Z.pow_lt_mono_r; lia).
    rewrite Z.mod_small; lia. }
  rewrite Hflag.
  rewrite <- (toInt32_testbit refType k) by lia.
  destruct (Z.testbit (toInt32 refType) k) eqn:Hbit.
  - apply negb_true_iff, Z.eqb_neq. intros Hz.
    assert (Hb : Z.testbit (Z.land (toInt32 refType) (2 ^ k)) k = true).
    { rewrite Z.land_spec, Hbit, Z.pow2_bits_true by lia. reflexivity. }
    rewrite Hz, Z.bits_0 in Hb. discriminate.
  - apply negb_false_iff, Z.eqb_eq. apply Z.bits_inj'. intros n Hn.
    rewrite Z.land_spec, Z.bits_0.
    destruct (Z.eq_dec n k) as [->|Hne].
    + rewrite Hbit. reflexivity.
    + rewrite (Z.pow2_bits_false k n) by lia. apply andb_false_r.
Qed.

Lemma js_or_testbit (a b i : Z) :
  0 <= i < 32 -> Z.testbit (js_or a b) i = Z.testbit a i || Z.testbit b i.
Proof.
  intros Hi. unfold js_or. rewrite Z.lor_spec, !toInt32_testbit by lia. reflexivity.
Qed.

Lemma js_and_testbit (a b i : Z) :
  0 <= i < 32 -> Z.testbit (js_and a b) i = Z.testbit a i && Z.testbit b i.
Proof.
  intros Hi. unfold js_and. rewrite Z.land_spec, !toInt32_testbit by lia. reflexivity.
Qed.

Lemma js_not_testbit (a i : Z) :
  0 <= i < 32 -> Z.testbit (js_not a) i = negb (Z.testbit a i).
Proof.
  intros Hi. unfold js_not. rewrite Z.lnot_spec, toInt32_testbit by lia. reflexivity.
Qed.

(** What [getRefType] does to the two removal flags of any reference type
    when there is no op: SlideOnRemove is cleared and StayOnRemove is set. *)
Lemma getRefType_local_flags (baseType : Z) :
  refTypeIncludesFlag
    (SequenceIntervalClass.getRefType None baseType) ReferenceType.SlideOnRemove = false
  /\ refTypeIncludesFlag
       (SequenceIntervalClass.getRefType None baseType) ReferenceType.StayOnRemove = true.
Proof.
  unfold SequenceIntervalClass.getRefType.
  change ReferenceType.SlideOnRemove with (2 ^ 6).
  change ReferenceType.StayOnRemove with (2 ^ 7).
  rewrite !refTypeIncludesFlag_testbit by lia.
  rewrite !js_or_testbit, !js_and_testbit, !js_not_testbit by lia.
  rewrite (Z.pow2_bits_true 6), (Z.pow2_bits_true 7) by lia.
  rewrite (Z.pow2_bits_false 7 6) by lia.
  split.
  - rewrite andb_false_r. reflexivity.
  - apply orb_true_r.
Qed.

(** ** The endpoint factory *)

Section EndpointFactory.

Context `{UG : UuidGenerator} `{MT : MergeTree}.

Lemma bind_inr {A B} (c : M A) (k : A -> M B) (w w' : World) (b : B) :
  (c ≫= k) w = inr (b, w') <->
  exists a w1, c w = inr (a, w1) /\ k a w1 = inr (b, w').
Proof.
  unfold mbind, M_bind. split.
  - destruct (c w) as [e | [a w1]]; [discriminate | eauto].
  - intros (a & w1 & -> & Hk). exact Hk.
Qed.

(** A reference that the client creates carries the reference type it was
    asked for, and is a new object. *)
Lemma createLocalReferencePosition_inr client target offset rt props sp cse w :
  createLocalReferencePosition client target offset rt props sp cse w
  = inr ({| lref_oid := next_oid w; refType := rt; slidingPreference := sp;
            canSlideToEndpoint := cse;
            getSegment := Some (match target with
                                | inl e => EndpointSegment e
                                | inr s => s
                                end);
            getOffset := offset; lref_properties := props |},
         {| next_oid := S (next_oid w); uuid_state := uuid_state w |}).
Proof. reflexivity. Qed.

Lemma createDetachedLocalReferencePosition_inr sp rt w :
  createDetachedLocalReferencePosition sp rt w
  = inr (detachedReference (next_oid w) sp rt,
         {| next_oid := S (next_oid w); uuid_state := uuid_state w |}).
Proof. reflexivity. Qed.

(** The guard of [createPositionReferenceFromSegoff], read as a statement
    about the request. *)
Lemma needs_segment_guard rt (op : option ISequencedDocumentMessage)
    localSeq fromSnapshot rollback :
  negb (is_defined op) && negb (truthy_number localSeq)
  && negb (truthy_boolean fromSnapshot)
  && negb (refTypeIncludesFlag rt ReferenceType.Transient)
  && negb (truthy_boolean rollback) = true
  <-> carries_no_origin rt op localSeq fromSnapshot rollback.
Proof.
  unfold carries_no_origin.
  rewrite !andb_true_iff, !negb_true_iff.
  assert (Hseq : truthy_number localSeq = false
                 <-> localSeq = None \/ localSeq = Some 0).
  { destruct localSeq as [n|]; cbn; [|tauto].
    rewrite negb_false_iff, Z.eqb_eq. split.
    - intros ->. now right.
    - intros [H|H]; congruence. }
  assert (Hflag : forall b : option bool,
             truthy_boolean b = false <-> b <> Some true).
  { intros [[]|]; cbn; split; congruence. }
  rewrite Hseq, !Hflag.
  destruct op; cbn; split; intros H; intuition congruence.
Qed.

(** C3, as the code has it: with no segment found, the error "Non-transient
    references need segment" is raised exactly when the request carries no
    op, no localSeq other than 0, is not from a snapshot, is not a rollback,
    and the reference type does not include Transient; in every other case
    without a segment a detached reference with the sliding preference and
    the reference type only is returned. *)
Theorem createPositionReferenceFromSegoff_needs_segment
    client segoff rt op localSeq fromSnapshot sp cse rollback (w : World) :
  (createPositionReferenceFromSegoff client segoff rt op localSeq fromSnapshot
     sp cse rollback w
   = inl (UsageError "Non-transient references need segment")
   <-> segment_undefined segoff = true
       /\ carries_no_origin rt op localSeq fromSnapshot rollback)
  /\ (segment_undefined segoff = true ->
      ~ carries_no_origin rt op localSeq fromSnapshot rollback ->
      createPositionReferenceFromSegoff client segoff rt op localSeq fromSnapshot
        sp cse rollback w
      = inr (detachedReference (next_oid w) sp rt,
             {| next_oid := S (next_oid w); uuid_state := uuid_state w |})).
Proof.
  pose proof (needs_segment_guard rt op localSeq fromSnapshot rollback) as Hguard.
  destruct segoff as [e | [segment|] offset | ];
    cbn [createPositionReferenceFromSegoff segment_undefined].
  1, 2: split; [split; [intros H; discriminate H | intros [H _]; discriminate H]
               | intros H; discriminate H].
  all: match goal with
       | |- context [if ?c then _ else _] => destruct c
       end.
  all: split; [split | ].
  all: try (intros; split; [reflexivity | apply Hguard; reflexivity]).
  all: try reflexivity.
  all: try (intros _ Hnot; exfalso; apply Hnot, Hguard; reflexivity).
  all: try (intros [_ H]; apply Hguard in H; discriminate H).
  all: try (intros H; discriminate H).
Qed.

End EndpointFactory.

Lemma createPositionReferenceFromSegoff_witness :
  createPositionReferenceFromSegoff (UG := Flat.uuids) (Flat.client 11)
    SegoffUndefined 144 None (Some 5) None (Some FORWARD) (Some false) None
    (Flat.world ∅)
  = inr (detachedReference 0 (Some FORWARD) 144, @mkWorld Flat.uuids 1%nat ∅).
Proof.
  apply (createPositionReferenceFromSegoff_needs_segment (UG := Flat.uuids)
           (Flat.client 11) SegoffUndefined 144 None (Some 5) None
           (Some FORWARD) (Some false) None (Flat.world ∅)).
  - reflexivity.
  - unfold carries_no_origin. intros (_ & [H|H] & _); discriminate H.
Defined.

(** C3 as stated fails: a request whose localSeq is 0 carries a localSeq,
    and is refused all the same. *)
Lemma createPositionReferenceFromSegoff_localSeq_zero :
  ~ (forall client segoff rt op localSeq fromSnapshot sp cse rollback w,
       createPositionReferenceFromSegoff (UG := Flat.uuids) client segoff rt op
         localSeq fromSnapshot sp cse rollback w
       = inl (UsageError "Non-transient references need segment")
       <-> segment_undefined segoff = true
           /\ op = None /\ localSeq = None /\ fromSnapshot <> Some true
           /\ rollback <> Some true
           /\ refTypeIncludesFlag rt ReferenceType.Transient = false).
Proof.
  intros H.
  destruct (H (Flat.client 11) SegoffUndefined 144 None (Some 0) None
              (Some FORWARD) (Some false) None (Flat.world ∅)) as [Hraise _].
  destruct (Hraise eq_refl) as (_ & _ & Hseq & _). discriminate Hseq.
Qed.

Section Creation.

Context `{UG : UuidGenerator} `{MT : MergeTree}.

(** A reference that the factory returns is a new object with the
    reference type and the sliding preference the factory was given. *)
Lemma createPositionReferenceFromSegoff_inr
    client segoff rt op localSeq fromSnapshot sp cse rollback (w w' : World) r :
  createPositionReferenceFromSegoff client segoff rt op localSeq fromSnapshot
    sp cse rollback w = inr (r, w') ->
  refType r = rt /\ slidingPreference r = sp /\ lref_properties r = None
  /\ lref_oid r = next_oid w
  /\ w' = {| next_oid := S (next_oid w); uuid_state := uuid_state w |}.
Proof.
  destruct segoff as [e | [segment|] offset | ];
    cbn [createPositionReferenceFromSegoff];
    try match goal with
        | |- context [if ?c then _ else _] => destruct c
        end;
    try (intros H; discriminate H);
    rewrite ?createLocalReferencePosition_inr,
            ?createDetachedLocalReferencePosition_inr;
    intros H; injection H as <- <-; repeat split.
Qed.

Lemma assert_inr condition code (w w' : World) u :
  assert condition code w = inr (u, w') -> condition = true /\ w' = w.
Proof.
  unfold assert. destruct condition; [|intros H; discriminate H].
  intros H. injection H as _ <-. split; reflexivity.
Qed.

Lemma createPositionReference_inr
    client pos rt op fromSnapshot localSeq sp exclusive useNew rollback
    (w w' : World) r :
  createPositionReference client pos rt op fromSnapshot localSeq sp exclusive
    useNew rollback w = inr (r, w') ->
  refType r = rt /\ slidingPreference r = sp /\ lref_properties r = None
  /\ lref_oid r = next_oid w
  /\ w' = {| next_oid := S (next_oid w); uuid_state := uuid_state w |}.
Proof.
  unfold createPositionReference. intros H.
  apply bind_inr in H as (segoff & w1 & Hsegoff & H).
  assert (w1 = w) as ->.
  { destruct op as [o|]; apply bind_inr in Hsegoff as (u & w2 & Hassert & Hret);
      apply assert_inr in Hassert as [_ ->]; injection Hret as _ <-; reflexivity. }
  eapply createPositionReferenceFromSegoff_inr, H.
Qed.

Lemma lref_addProperties_refType r props :
  refType (lref_addProperties r props) = refType r.
Proof. reflexivity. Qed.

End Creation.

(** ** Creating and modifying intervals *)

Section Intervals.

Context `{UG : UuidGenerator} `{MT : MergeTree}.

(** The endpoints of a created interval carry the reference types that
    [createSequenceInterval] chose. *)
Lemma createSequenceInterval_inr label id start end_ client intervalType op
    fromSnapshot useNew props rollback (w w' : World) i :
  createSequenceInterval label id start end_ client intervalType op
    fromSnapshot useNew props rollback w = inr (i, w') ->
  refType (SequenceIntervalClass.start i)
  = (endpointRefTypes intervalType op fromSnapshot).1
  /\ refType (SequenceIntervalClass.end_ i)
     = (endpointRefTypes intervalType op fromSnapshot).2
  /\ SequenceIntervalClass.properties i
     = match props with
       | Some props => addProperties ∅ (reserved_overridden props)
       | None => ∅
       end
  /\ SequenceIntervalClass.id i = id
  /\ SequenceIntervalClass.label i = label.
Proof.
  unfold createSequenceInterval.
  destruct (pas_startPos _) as [startPos|]; [|intros H; discriminate H].
  destruct (pas_endPos _) as [endPos|]; [|intros H; discriminate H].
  destruct (pas_startSide _) as [startSide|]; [|intros H; discriminate H].
  destruct (pas_endSide _) as [endSide|]; [|intros H; discriminate H].
  destruct (endpointRefTypes intervalType op fromSnapshot)
    as [beginRefType endRefType].
  intros H.
  apply bind_inr in H as (startLref & w1 & Hstart & H).
  apply bind_inr in H as (endLref & w2 & Hend & H).
  apply createPositionReference_inr in Hstart as (Hs & _).
  apply createPositionReference_inr in Hend as (He & _).
  injection H as <- <-. cbn.
  destruct props; repeat split; assumption.
Qed.

(** C1, as the code has it: a transient interval has both endpoints of
    reference type Transient alone, without RangeBegin or RangeEnd; any
    other interval has RangeBegin on its start and RangeEnd on its end,
    with SlideOnRemove (and not StayOnRemove) when it is created from an op
    or a snapshot, and StayOnRemove (and not SlideOnRemove) otherwise. *)
Theorem createSequenceInterval_refTypes label id start end_ client intervalType
    op fromSnapshot useNew props rollback (w w' : World) i :
  createSequenceInterval label id start end_ client intervalType op
    fromSnapshot useNew props rollback w = inr (i, w') ->
  let beginRef := refType (SequenceIntervalClass.start i) in
  let endRef := refType (SequenceIntervalClass.end_ i) in
  (intervalType = IntervalType.Transient ->
   beginRef = ReferenceType.Transient /\ endRef = ReferenceType.Transient)
  /\ (intervalType <> IntervalType.Transient ->
      (op <> None \/ fromSnapshot = Some true ->
       beginRef = Z.lor ReferenceType.RangeBegin ReferenceType.SlideOnRemove
       /\ endRef = Z.lor ReferenceType.RangeEnd ReferenceType.SlideOnRemove
       /\ refTypeIncludesFlag beginRef ReferenceType.SlideOnRemove = true
       /\ refTypeIncludesFlag endRef ReferenceType.SlideOnRemove = true
       /\ refTypeIncludesFlag beginRef ReferenceType.StayOnRemove = false
       /\ refTypeIncludesFlag endRef ReferenceType.StayOnRemove = false)
      /\ (~ (op <> None \/ fromSnapshot = Some true) ->
          beginRef = Z.lor ReferenceType.RangeBegin ReferenceType.StayOnRemove
          /\ endRef = Z.lor ReferenceType.RangeEnd ReferenceType.StayOnRemove
          /\ refTypeIncludesFlag beginRef ReferenceType.StayOnRemove = true
          /\ refTypeIncludesFlag endRef ReferenceType.StayOnRemove = true
          /\ refTypeIncludesFlag beginRef ReferenceType.SlideOnRemove = false
          /\ refTypeIncludesFlag endRef ReferenceType.SlideOnRemove = false)).
Proof.
  intros H. apply createSequenceInterval_inr in H as (Hs & He & _).
  cbn zeta. rewrite Hs, He. clear Hs He.
  assert (Horigin : op_or_fromSnapshot op fromSnapshot = true
                    <-> op <> None \/ fromSnapshot = Some true).
  { destruct op as [o|], fromSnapshot as [[]|]; cbn; split;
      first [ reflexivity | intros H; discriminate H
            | intros _; left; discriminate | intros _; right; reflexivity
            | intros [H|H]; congruence ]. }
  unfold endpointRefTypes. split.
  - intros ->. split; reflexivity.
  - intros Hkind.
    destruct (op_or_fromSnapshot op fromSnapshot) eqn:Hfrom.
    + destruct intervalType; try congruence; cbn [IntervalType.eqb fst snd].
      all: split;
        [ intros _; repeat split; reflexivity
        | intros Hnot; exfalso; apply Hnot, Horigin; reflexivity ].
    + destruct intervalType; try congruence; cbn [IntervalType.eqb fst snd].
      all: split;
        [ intros Hor; apply Horigin in Hor; discriminate Hor
        | intros _; repeat split; reflexivity ].
Qed.

End Intervals.

Lemma createSequenceInterval_refTypes_witness :
  exists i w',
    createSequenceInterval (UG := Flat.uuids) (MT := Flat.mergeTree 11)
      "x" "A" (Some (Plain (PNum 0))) (Some (Plain (PNum 5))) (Flat.client 11)
      IntervalType.SlideOnRemove None None false None None (Flat.world ∅)
    = inr (i, w')
    /\ refType (SequenceIntervalClass.start i) = 144
    /\ refType (SequenceIntervalClass.end_ i) = 160.
Proof.
  eexists _, _. split; [exact eq_refl|].
  destruct (createSequenceInterval_refTypes (UG := Flat.uuids)
              (MT := Flat.mergeTree 11) "x" "A"
              (Some (Plain (PNum 0))) (Some (Plain (PNum 5)))
              (Flat.client 11) IntervalType.SlideOnRemove None None false
              None None (Flat.world ∅) _ _ eq_refl) as [_ H].
  destruct H as [_ H]; [discriminate|].
  destruct H as (Hb & He & _).
  - intros [H|H]; [apply H; reflexivity | discriminate H].
  - split; assumption.
Defined.

(** C1 as stated fails: the endpoints of a transient interval have the
    reference type Transient alone, not RangeBegin or RangeEnd with
    Transient added. *)
Lemma createSequenceInterval_transient_not_or :
  ~ (forall label id start end_ client op fromSnapshot useNew props rollback
       w w' i,
       createSequenceInterval (UG := Flat.uuids) (MT := Flat.mergeTree 11)
         label id start end_ client IntervalType.Transient op fromSnapshot
         useNew props rollback w = inr (i, w') ->
       refType (SequenceIntervalClass.start i)
       = Z.lor ReferenceType.RangeBegin ReferenceType.Transient
       /\ refType (SequenceIntervalClass.end_ i)
          = Z.lor ReferenceType.RangeEnd ReferenceType.Transient).
Proof.
  intros H.
  destruct (H "transient" "T" (Some (Plain (PNum 0))) (Some (Plain (PNum 5)))
              (Flat.client 11) None None false None None (Flat.world ∅)
              _ _ eq_refl) as [Hb _].
  discriminate Hb.
Qed.

Section Modify.

Context `{UG : UuidGenerator} `{MT : MergeTree}.

Lemma copy_ref_properties_refType old new :
  refType (SequenceIntervalClass.copy_ref_properties old new) = refType new
  /\ lref_oid (SequenceIntervalClass.copy_ref_properties old new) = lref_oid new.
Proof.
  unfold SequenceIntervalClass.copy_ref_properties.
  destruct (lref_properties old); split; reflexivity.
Qed.

(** The endpoint that [modify] keeps or replaces for one place: kept as it
    is without a place, and otherwise a new object whose reference type is
    what [getRefType] makes of the old one. *)
Lemma modify_endpoint (client : Client) (old : LocalReferencePosition)
    (place : option Pos) op localSeq sp exclusive useNew (w w' : World) r :
  match place with
  | Some pos =>
      ref ← createPositionReference client pos
              (SequenceIntervalClass.getRefType op (refType old))
              op None localSeq sp exclusive useNew None;
      mret (SequenceIntervalClass.copy_ref_properties old ref)
  | None => mret old
  end w = inr (r, w') ->
  (next_oid w <= next_oid w')%nat
  /\ match place with
     | None => r = old
     | Some _ =>
         (next_oid w <= lref_oid r)%nat
         /\ refType r = SequenceIntervalClass.getRefType op (refType old)
     end.
Proof.
  destruct place as [pos|]; intros H.
  - apply bind_inr in H as (ref & w1 & Href & H).
    apply createPositionReference_inr in Href as (Hrt & _ & _ & Hoid & ->).
    injection H as <- <-.
    destruct (copy_ref_properties_refType old ref) as [-> ->].
    cbn. rewrite Hrt, Hoid. repeat split; lia.
  - injection H as <- <-. split; [lia | reflexivity].
Qed.

(** C2: whenever [modify] returns, the interval it returns has the id of
    the one modified; an endpoint for which no place is given is the very
    reference of the old interval; an endpoint that is replaced is a new
    object whose reference type, without an op, has SlideOnRemove cleared
    and StayOnRemove set, and with an op is the old reference type. *)
Theorem modify_id_and_endpoints (this : SequenceIntervalClass.t) label
    start end_ op localSeq useNew (w w' : World) i' :
  SequenceIntervalClass.modify this label start end_ op localSeq useNew w
  = inr (i', w') ->
  let replaced (old new : LocalReferencePosition) :=
    (next_oid w <= lref_oid new)%nat
    /\ match op with
       | None =>
           refTypeIncludesFlag (refType new) ReferenceType.SlideOnRemove = false
           /\ refTypeIncludesFlag (refType new) ReferenceType.StayOnRemove = true
       | Some _ => refType new = refType old
       end in
  SequenceIntervalClass.getIntervalId i' = SequenceIntervalClass.getIntervalId this
  /\ (start = None ->
      SequenceIntervalClass.start i' = SequenceIntervalClass.start this)
  /\ (end_ = None ->
      SequenceIntervalClass.end_ i' = SequenceIntervalClass.end_ this)
  /\ (start <> None ->
      replaced (SequenceIntervalClass.start this) (SequenceIntervalClass.start i'))
  /\ (end_ <> None ->
      replaced (SequenceIntervalClass.end_ this) (SequenceIntervalClass.end_ i')).
Proof.
  unfold SequenceIntervalClass.modify. intros H.
  apply bind_inr in H as (startRef & w1 & Hstart & H).
  apply bind_inr in H as (endRef & w2 & Hend & H).
  apply modify_endpoint in Hstart as [Hw1 Hstart].
  apply modify_endpoint in Hend as [_ Hend].
  injection H as <- <-. cbn.
  assert (Hflags : forall old new : LocalReferencePosition,
             refType new = SequenceIntervalClass.getRefType op (refType old) ->
             match op with
             | None =>
                 refTypeIncludesFlag (refType new) ReferenceType.SlideOnRemove = false
                 /\ refTypeIncludesFlag (refType new) ReferenceType.StayOnRemove = true
             | Some _ => refType new = refType old
             end).
  { intros old new ->. destruct op; [reflexivity|].
    apply getRefType_local_flags. }
  assert (Hs : match start with
               | None => startRef = SequenceIntervalClass.start this
               | Some _ =>
                   (next_oid w <= lref_oid startRef)%nat
                   /\ refType startRef
                      = SequenceIntervalClass.getRefType op
                          (refType (SequenceIntervalClass.start this))
               end)
    by (destruct start as [[p|n s]|]; exact Hstart).
  assert (He : match end_ with
               | None => endRef = SequenceIntervalClass.end_ this
               | Some _ =>
                   (next_oid w <= lref_oid endRef)%nat
                   /\ refType endRef
                      = SequenceIntervalClass.getRefType op
                          (refType (SequenceIntervalClass.end_ this))
               end).
  { destruct end_ as [[p|n s]|]; cbn in Hend; [| |exact Hend];
      (split; [lia | apply Hend]). }
  clear Hstart Hend.
  split; [reflexivity|]. repeat split.
  - intros ->. exact Hs.
  - intros ->. exact He.
  - destruct start; [lia | congruence].
  - destruct start; [apply Hflags, Hs | congruence].
  - destruct end_; [lia | congruence].
  - destruct end_; [apply Hflags, He | congruence].
Qed.

End Modify.

Lemma modify_id_and_endpoints_witness :
  exists i' w',
    SequenceIntervalClass.modify (UG := Flat.uuids) (MT := Flat.mergeTree 11)
      interval_A "x" (Some (Interior 1 Before)) None None None false
      world_after_A = inr (i', w')
    /\ SequenceIntervalClass.getIntervalId i' = "A"
    /\ SequenceIntervalClass.end_ i' = SequenceIntervalClass.end_ interval_A
    /\ refTypeIncludesFlag (refType (SequenceIntervalClass.start i'))
         ReferenceType.StayOnRemove = true.
Proof.
  eexists _, _. split; [exact eq_refl|].
  destruct (modify_id_and_endpoints (UG := Flat.uuids) (MT := Flat.mergeTree 11)
              interval_A "x" (Some (Interior 1 Before)) None None None false
              world_after_A _ _ eq_refl) as (Hid & _ & Hend & Hstart & _).
  split; [exact Hid|]. split; [exact (Hend eq_refl)|].
  destruct Hstart as (_ & _ & Hstay); [discriminate | exact Hstay].
Defined.

(** ** The order on intervals *)

Section ComparatorLaws.

Context {T : Type} (P : T -> Prop).

Lemma lex_antisymmetric (f g : T -> T -> Z) :
  antisymmetric_on P f -> antisymmetric_on P g -> antisymmetric_on P (lex f g).
Proof.
  intros Hf Hg a b Ha Hb. unfold lex.
  specialize (Hf a b Ha Hb). specialize (Hg a b Ha Hb).
  destruct (Z.eqb_spec (f a b) 0), (Z.eqb_spec (f b a) 0); lia.
Qed.

Lemma lex_transitive (f g : T -> T -> Z) :
  antisymmetric_on P f -> transitive_on P f ->
  transitive_on P g -> transitive_on P (lex f g).
Proof.
  intros Hfa Hft Hgt a b c Ha Hb Hc. unfold lex.
  pose proof (Hfa a b Ha Hb). pose proof (Hfa b c Hb Hc).
  pose proof (Hfa a c Ha Hc).
  pose proof (Hft a b c Ha Hb Hc). pose proof (Hft a c b Ha Hc Hb).
  pose proof (Hft b a c Hb Ha Hc). pose proof (Hft b c a Hb Hc Ha).
  pose proof (Hft c a b Hc Ha Hb). pose proof (Hft c b a Hc Hb Ha).
  pose proof (Hgt a b c Ha Hb Hc).
  destruct (Z.eqb_spec (f a b) 0), (Z.eqb_spec (f b c) 0),
    (Z.eqb_spec (f a c) 0); lia.
Qed.

End ComparatorLaws.

Lemma string_compare_refl (a : string) : String.compare a a = Eq.
Proof.
  induction a as [|x a IH]; [reflexivity|]. cbn.
  unfold Ascii.compare. rewrite N.compare_refl. exact IH.
Qed.

Lemma string_compare_transitive (a b c : string) :
  String.compare a b <> Gt -> String.compare b c <> Gt ->
  String.compare a c <> Gt.
Proof.
  revert b c. induction a as [|x a IH]; intros [|y b] [|z c]; cbn;
    try congruence.
  unfold Ascii.compare.
  destruct (N.compare_spec (N_of_ascii x) (N_of_ascii y)),
    (N.compare_spec (N_of_ascii y) (N_of_ascii z)),
    (N.compare_spec (N_of_ascii x) (N_of_ascii z));
    try congruence; try lia; try (intros; discriminate).
  apply IH.
Qed.

Lemma compare_strings_spec (a b : string) :
  compare_strings a b
  = match String.compare a b with Lt => -1 | Eq => 0 | Gt => 1 end.
Proof.
  unfold compare_strings, js_string_gt, js_string_lt.
  destruct (String.compare a b); reflexivity.
Qed.

Lemma compare_strings_antisymmetric (a b : string) :
  compare_strings a b = - compare_strings b a.
Proof.
  rewrite !compare_strings_spec, (String.compare_antisym b a).
  destruct (String.compare a b); reflexivity.
Qed.

Lemma compare_strings_transitive (a b c : string) :
  compare_strings a b <= 0 -> compare_strings b c <= 0 ->
  compare_strings a c <= 0.
Proof.
  rewrite !compare_strings_spec. intros Hab Hbc.
  pose proof (string_compare_transitive a b c) as H.
  destruct (String.compare a b), (String.compare b c), (String.compare a c);
    try lia; exfalso; apply H; congruence.
Qed.

Lemma compareSides_antisymmetric (s t : Side) :
  compareSides s t = - compareSides t s.
Proof. destruct s, t; reflexivity. Qed.

Lemma compareSides_antisymmetric_refl (s : Side) : compareSides s s = 0.
Proof. destruct s; reflexivity. Qed.

Lemma compareSides_transitive (s t u : Side) :
  compareSides s t <= 0 -> compareSides t u <= 0 -> compareSides s u <= 0.
Proof. destruct s, t, u; cbn; lia. Qed.

Section Compare.

Context `{MT : MergeTree}.

Hypothesis compareReferencePositions_antisymmetric :
  forall a b, compareReferencePositions a b = - compareReferencePositions b a.

Hypothesis compareReferencePositions_transitive :
  forall a b c,
    compareReferencePositions a b <= 0 -> compareReferencePositions b c <= 0 ->
    compareReferencePositions a c <= 0.

Lemma compare_lex (a b : SequenceIntervalClass.t) :
  has_id a -> has_id b ->
  SequenceIntervalClass.compare a b
  = lex (lex byStart byStartSide) (lex (lex byEnd byEndSide) byId) a b.
Proof.
  unfold has_id, SequenceIntervalClass.compare, SequenceIntervalClass.getIntervalId.
  intros Ha Hb.
  destruct (SequenceIntervalClass.id a) eqn:Hida; [congruence|].
  destruct (SequenceIntervalClass.id b) eqn:Hidb; [congruence|].
  unfold lex, byId, byStart, byStartSide, byEnd, byEndSide, compare_strings,
    SequenceIntervalClass.compareStart, SequenceIntervalClass.compareEnd.
  rewrite Hida, Hidb. reflexivity.
Qed.

Lemma compare_laws :
  antisymmetric_on has_id (lex (lex byStart byStartSide) (lex (lex byEnd byEndSide) byId))
  /\ transitive_on has_id (lex (lex byStart byStartSide) (lex (lex byEnd byEndSide) byId)).
Proof.
  assert (A1 : antisymmetric_on has_id byStart)
    by (intros a b _ _; apply compareReferencePositions_antisymmetric).
  assert (A2 : antisymmetric_on has_id byStartSide)
    by (intros a b _ _; apply compareSides_antisymmetric).
  assert (A3 : antisymmetric_on has_id byEnd)
    by (intros a b _ _; apply compareReferencePositions_antisymmetric).
  assert (A4 : antisymmetric_on has_id byEndSide)
    by (intros a b _ _; apply compareSides_antisymmetric).
  assert (A5 : antisymmetric_on has_id byId)
    by (intros a b _ _; apply compare_strings_antisymmetric).
  assert (T1 : transitive_on has_id byStart)
    by (intros a b c _ _ _; apply compareReferencePositions_transitive).
  assert (T2 : transitive_on has_id byStartSide)
    by (intros a b c _ _ _; apply compareSides_transitive).
  assert (T3 : transitive_on has_id byEnd)
    by (intros a b c _ _ _; apply compareReferencePositions_transitive).
  assert (T4 : transitive_on has_id byEndSide).
  { intros a b c _ _ _ H1 H2. unfold byEndSide in *.
    destruct (SequenceIntervalClass.endSide a), (SequenceIntervalClass.endSide b),
      (SequenceIntervalClass.endSide c); cbn in *; lia. }
  assert (T5 : transitive_on has_id byId)
    by (intros a b c _ _ _; apply compare_strings_transitive).
  split.
  - auto using lex_antisymmetric.
  - auto 10 using lex_antisymmetric, lex_transitive.
Qed.

(** C5: on intervals with non-empty ids, and with a reference comparator
    that is antisymmetric and transitive, [compare] orders by
    [compareStart], then by [compareEnd], then by the ids as strings; it
    gives 0 on an interval and itself, [compare a b] is the opposite of
    [compare b a], and it is transitive. *)
Theorem compare_total_order :
  (forall a b, has_id a -> has_id b ->
     SequenceIntervalClass.compare a b
     = if SequenceIntervalClass.compareStart a b =? 0
       then if SequenceIntervalClass.compareEnd a b =? 0
            then compare_strings (SequenceIntervalClass.getIntervalId a)
                   (SequenceIntervalClass.getIntervalId b)
            else SequenceIntervalClass.compareEnd a b
       else SequenceIntervalClass.compareStart a b)
  /\ (forall a, SequenceIntervalClass.compare a a = 0)
  /\ (forall a b, has_id a -> has_id b ->
        SequenceIntervalClass.compare a b = - SequenceIntervalClass.compare b a)
  /\ (forall a b c, has_id a -> has_id b -> has_id c ->
        SequenceIntervalClass.compare a b <= 0 ->
        SequenceIntervalClass.compare b c <= 0 ->
        SequenceIntervalClass.compare a c <= 0).
Proof.
  destruct compare_laws as [Hanti Htrans].
  split; [|split; [|split]].
  - intros a b Ha Hb. rewrite (compare_lex a b Ha Hb). reflexivity.
  - intros a.
    assert (Hrefl : forall r, compareReferencePositions r r = 0)
      by (intros r; pose proof (compareReferencePositions_antisymmetric r r); lia).
    unfold SequenceIntervalClass.compare, SequenceIntervalClass.compareStart,
      SequenceIntervalClass.compareEnd, SequenceIntervalClass.getIntervalId.
    rewrite !Hrefl. cbn [Z.eqb].
    rewrite !compareSides_antisymmetric_refl. cbn [Z.eqb].
    unfold js_string_gt, js_string_lt. rewrite string_compare_refl.
    destruct (truthy_string _); reflexivity.
  - intros a b Ha Hb.
    rewrite (compare_lex a b Ha Hb), (compare_lex b a Hb Ha).
    apply Hanti; assumption.
  - intros a b c Ha Hb Hc.
    rewrite (compare_lex a b Ha Hb), (compare_lex b c Hb Hc),
      (compare_lex a c Ha Hc).
    apply Htrans; assumption.
Qed.

End Compare.

Lemma compare_total_order_witness :
  SequenceIntervalClass.compare (MT := Flat.mergeTree 11) interval_A interval_A = 0
  /\ SequenceIntervalClass.compare (MT := Flat.mergeTree 11) interval_A interval_B
     = - SequenceIntervalClass.compare (MT := Flat.mergeTree 11) interval_B interval_A.
Proof.
  destruct (compare_total_order (MT := Flat.mergeTree 11)) as (_ & Hrefl & Hanti & _).
  - intros a b. cbn. unfold Flat.compareReferencePositions. lia.
  - intros a b c. cbn. unfold Flat.compareReferencePositions. lia.
  - split; [apply Hrefl | apply Hanti; discriminate].
Defined.

(** ** Union *)

Section Union.

Context `{UG : UuidGenerator} `{MT : MergeTree}.

Lemma union_inr (this b : SequenceIntervalClass.t) (w : World) :
  SequenceIntervalClass.union this b w
  = inr (SequenceIntervalClass.new (SequenceIntervalClass.client this)
           (uuid_draw (uuid_state w)).1 (SequenceIntervalClass.label this)
           (minReferencePosition (SequenceIntervalClass.start this)
              (SequenceIntervalClass.start b))
           (maxReferencePosition (SequenceIntervalClass.end_ this)
              (SequenceIntervalClass.end_ b))
           (SequenceIntervalClass.intervalType this) None
           (Some (if same_object (SequenceIntervalClass.start this)
                       (SequenceIntervalClass.start b)
                  then minSide (SequenceIntervalClass.startSide this)
                         (SequenceIntervalClass.startSide b)
                  else if same_object (SequenceIntervalClass.start this)
                            (minReferencePosition (SequenceIntervalClass.start this)
                               (SequenceIntervalClass.start b))
                       then SequenceIntervalClass.startSide this
                       else SequenceIntervalClass.startSide b))
           (Some (if same_object (SequenceIntervalClass.end_ this)
                       (SequenceIntervalClass.end_ b)
                  then maxSide (SequenceIntervalClass.endSide this)
                         (SequenceIntervalClass.endSide b)
                  else if same_object (SequenceIntervalClass.end_ this)
                            (maxReferencePosition (SequenceIntervalClass.end_ this)
                               (SequenceIntervalClass.end_ b))
                       then SequenceIntervalClass.endSide this
                       else SequenceIntervalClass.endSide b)),
         {| next_oid := next_oid w; uuid_state := (uuid_draw (uuid_state w)).2 |}).
Proof.
  unfold SequenceIntervalClass.union, mbind, M_bind, uuid.
  destruct (uuid_draw (uuid_state w)) as [u g]. reflexivity.
Qed.

(** C6: the union of two intervals starts at the lesser of the two starts
    and ends at the greater of the two ends; when the two starts are one
    object its start side is Before if either start side is Before and
    After otherwise, and when the two ends are one object its end side is
    After unless both end sides are Before; its id is a new draw of the
    uuid generator, its label and type are those of the first interval,
    and it has no properties. *)
Theorem union_endpoints_sides_id (this b : SequenceIntervalClass.t) (w : World) :
  exists u w',
    SequenceIntervalClass.union this b w = inr (u, w')
    /\ SequenceIntervalClass.start u
       = minReferencePosition (SequenceIntervalClass.start this)
           (SequenceIntervalClass.start b)
    /\ SequenceIntervalClass.end_ u
       = maxReferencePosition (SequenceIntervalClass.end_ this)
           (SequenceIntervalClass.end_ b)
    /\ (same_object (SequenceIntervalClass.start this)
          (SequenceIntervalClass.start b) = true ->
        SequenceIntervalClass.startSide u
        = if Side_is_before (SequenceIntervalClass.startSide this)
             || Side_is_before (SequenceIntervalClass.startSide b)
          then Before else After)
    /\ (same_object (SequenceIntervalClass.end_ this)
          (SequenceIntervalClass.end_ b) = true ->
        SequenceIntervalClass.endSide u
        = if Side_is_before (SequenceIntervalClass.endSide this)
             && Side_is_before (SequenceIntervalClass.endSide b)
          then Before else After)
    /\ SequenceIntervalClass.id u = (uuid_draw (uuid_state w)).1
    /\ (SequenceIntervalClass.id u ∉ taken (uuid_state w))
    /\ SequenceIntervalClass.label u = SequenceIntervalClass.label this
    /\ SequenceIntervalClass.intervalType u = SequenceIntervalClass.intervalType this
    /\ SequenceIntervalClass.properties u = ∅.
Proof.
  eexists _, _. split; [apply union_inr|]. cbn.
  repeat split.
  - intros ->.
    destruct (SequenceIntervalClass.startSide this),
      (SequenceIntervalClass.startSide b); reflexivity.
  - intros ->.
    destruct (SequenceIntervalClass.endSide this),
      (SequenceIntervalClass.endSide b); reflexivity.
  - apply uuid_draw_fresh.
Qed.

End Union.

Lemma union_endpoints_sides_id_witness :
  exists u w',
    SequenceIntervalClass.union (UG := Flat.uuids) (MT := Flat.mergeTree 11)
      interval_4_6 interval_4_8 (Flat.world {[ "C"; "D" ]}) = inr (u, w')
    /\ SequenceIntervalClass.start u = shared_start
    /\ SequenceIntervalClass.startSide u = Before
    /\ SequenceIntervalClass.end_ u = SequenceIntervalClass.end_ interval_4_8
    /\ (SequenceIntervalClass.id u ∉ ({[ "C"; "D" ]} : gset string)).
Proof.
  destruct (union_endpoints_sides_id (UG := Flat.uuids) (MT := Flat.mergeTree 11)
              interval_4_6 interval_4_8 (Flat.world {[ "C"; "D" ]}))
    as (u & w' & Hrun & Hstart & Hend & HstartSide & _ & _ & Hfresh & _).
  exists u, w'. split; [exact Hrun|].
  split; [rewrite Hstart; reflexivity|].
  split; [rewrite (HstartSide eq_refl); reflexivity|].
  split; [rewrite Hend; reflexivity | exact Hfresh].
Defined.

Section UnionCommutes.

Context `{UG : UuidGenerator} `{MT : MergeTree}.

Hypothesis compareReferencePositions_antisymmetric :
  forall a b, compareReferencePositions a b = - compareReferencePositions b a.

(** What the merge tree promises of the lesser and the greater of two
    references: one of the two, and a bound of both. *)
Hypothesis minReferencePosition_either :
  forall a b, minReferencePosition a b = a \/ minReferencePosition a b = b.

Hypothesis minReferencePosition_lower :
  forall a b,
    compareReferencePositions (minReferencePosition a b) a <= 0
    /\ compareReferencePositions (minReferencePosition a b) b <= 0.

Hypothesis maxReferencePosition_either :
  forall a b, maxReferencePosition a b = a \/ maxReferencePosition a b = b.

Hypothesis maxReferencePosition_upper :
  forall a b,
    compareReferencePositions a (maxReferencePosition a b) <= 0
    /\ compareReferencePositions b (maxReferencePosition a b) <= 0.




End UnionCommutes.



(** ** Serialization and the reserved keys *)

Lemma js_get_insert (o : PropertySet) (k : string) (v : Value) :
  js_get (<[k := v]> o) k = v.
Proof. unfold js_get. rewrite lookup_insert_eq. reflexivity. Qed.

Lemma js_get_insert_ne (o : PropertySet) (k k' : string) (v : Value) :
  k <> k' -> js_get (<[k := v]> o) k' = js_get o k'.
Proof. intros H. unfold js_get. rewrite lookup_insert_ne by exact H. reflexivity. Qed.

Lemma addProperties_lookup (oldProps newProps : PropertySet) (k : string) :
  addProperties oldProps newProps !! k
  = match newProps !! k with
    | Some VUndefined => oldProps !! k
    | Some VNull => None
    | Some v => Some v
    | None => oldProps !! k
    end.
Proof.
  unfold addProperties. rewrite lookup_merge.
  destruct (oldProps !! k), (newProps !! k) as [[]|]; reflexivity.
Qed.

(** C8: [serialize] is [serializeDelta] with the interval's own properties
    and with the endpoints: each endpoint is the sentinel of its segment or
    else the position the client resolves it to, the sides are the
    interval's, and the properties are the interval's with its id and its
    label under the reserved keys.  The interval "abc" labelled "hl" from 2
    After to 9 Before with the property color = red serializes to start 2,
    After, end 9, Before and the properties color = red, intervalId = abc,
    referenceRangeLabels = [hl]. *)
Theorem serialize_full_delta :
  (forall (MT : MergeTree) (i : SequenceIntervalClass.t),
     SequenceIntervalClass.serialize i
     = SequenceIntervalClass.serializeDelta i
         (Some (SequenceIntervalClass.properties i)) true
     /\ ser_start (SequenceIntervalClass.serialize i)
        = Some (default
                  (PNum (localReferencePositionToPosition
                           (SequenceIntervalClass.client i)
                           (SequenceIntervalClass.start i)))
                  (endpointType_of (getSegment (SequenceIntervalClass.start i))))
     /\ ser_end (SequenceIntervalClass.serialize i)
        = Some (default
                  (PNum (localReferencePositionToPosition
                           (SequenceIntervalClass.client i)
                           (SequenceIntervalClass.end_ i)))
                  (endpointType_of (getSegment (SequenceIntervalClass.end_ i))))
     /\ ser_startSide (SequenceIntervalClass.serialize i)
        = Some (SequenceIntervalClass.startSide i)
     /\ ser_endSide (SequenceIntervalClass.serialize i)
        = Some (SequenceIntervalClass.endSide i)
     /\ ser_properties (SequenceIntervalClass.serialize i)
        = Some (<["referenceRangeLabels" := VArr [VStr (SequenceIntervalClass.label i)]]>
                  (<["intervalId" := VStr (SequenceIntervalClass.id i)]>
                     (SequenceIntervalClass.properties i))))
  /\ (exists i w',
        createSequenceInterval (UG := Flat.uuids) (MT := Flat.mergeTree 11)
          "hl" "abc" (Some (Interior 2 After)) (Some (Interior 9 Before))
          (Flat.client 11) IntervalType.SlideOnRemove None None false
          (Some {[ "color" := VStr "red" ]}) None (Flat.world ∅) = inr (i, w')
        /\ ser_start (SequenceIntervalClass.serialize (MT := Flat.mergeTree 11) i)
           = Some (PNum 2)
        /\ ser_startSide (SequenceIntervalClass.serialize (MT := Flat.mergeTree 11) i)
           = Some After
        /\ ser_end (SequenceIntervalClass.serialize (MT := Flat.mergeTree 11) i)
           = Some (PNum 9)
        /\ ser_endSide (SequenceIntervalClass.serialize (MT := Flat.mergeTree 11) i)
           = Some Before
        /\ ser_properties (SequenceIntervalClass.serialize (MT := Flat.mergeTree 11) i)
           = Some {[ "color" := VStr "red";
                     "intervalId" := VStr "abc";
                     "referenceRangeLabels" := VArr [VStr "hl"] ]}).
Proof.
  split.
  - intros MT i. repeat split.
  - eexists _, _. split; [exact eq_refl|].
    repeat split.
Qed.

Section ReservedKeys.

Context `{UG : UuidGenerator} `{MT : MergeTree}.

Lemma js_get_reserved_overridden (props : PropertySet) :
  addProperties ∅ (reserved_overridden props) !! reservedIntervalIdKey = None
  /\ addProperties ∅ (reserved_overridden props) !! reservedRangeLabelsKey
     = None
  /\ (forall k, k <> reservedIntervalIdKey -> k <> reservedRangeLabelsKey ->
        addProperties ∅ (reserved_overridden props) !! k
        = addProperties ∅ props !! k).
Proof.
  unfold reserved_overridden. repeat split.
  - rewrite addProperties_lookup, lookup_insert_ne by discriminate.
    rewrite lookup_insert_eq. apply lookup_empty.
  - rewrite addProperties_lookup, lookup_insert_eq. apply lookup_empty.
  - intros k Hid Hlabels.
    rewrite !addProperties_lookup, !lookup_insert_ne by congruence.
    reflexivity.
Qed.

(** C9, as the code has it: the constructor adds the properties it is
    given as they are, reserved keys included (it removes no key: only an
    entry that is [undefined] or [null] is not stored);
    [createSequenceInterval] is what hands it the properties with both
    reserved keys overridden by [undefined], so that the property map of
    an interval it creates never contains a reserved key and has the other
    properties as the constructor adds them; serializing writes the id and
    the label under the reserved keys. *)
Theorem reserved_keys_of_created_interval :
  (forall client id label start end_ intervalType (props : PropertySet)
     startSide endSide k v,
     props !! k = Some v -> v <> VNull -> v <> VUndefined ->
     SequenceIntervalClass.properties
       (SequenceIntervalClass.new client id label start end_ intervalType
          (Some props) startSide endSide) !! k = Some v)
  /\ (forall label id start end_ client intervalType op fromSnapshot useNew
        props rollback (w w' : World) i,
        createSequenceInterval label id start end_ client intervalType op
          fromSnapshot useNew props rollback w = inr (i, w') ->
        SequenceIntervalClass.properties i !! "intervalId" = None
        /\ SequenceIntervalClass.properties i !! "referenceRangeLabels" = None
        /\ (forall k, k <> "intervalId" -> k <> "referenceRangeLabels" ->
              SequenceIntervalClass.properties i !! k
              = SequenceIntervalClass.properties
                  (SequenceIntervalClass.new client id label
                     (SequenceIntervalClass.start i)
                     (SequenceIntervalClass.end_ i)
                     intervalType props None None) !! k)
        /\ js_get (default ∅ (ser_properties (SequenceIntervalClass.serialize i)))
             "intervalId" = VStr id
        /\ js_get (default ∅ (ser_properties (SequenceIntervalClass.serialize i)))
             "referenceRangeLabels" = VArr [VStr label]).
Proof.
  split.
  - intros client id label start end_ intervalType props startSide endSide
      k v Hk Hv Hu.
    cbn. rewrite addProperties_lookup, Hk. destruct v; congruence.
  - intros label id start end_ client intervalType op fromSnapshot useNew
      props rollback w w' i H.
    apply createSequenceInterval_inr in H as (_ & _ & Hprops & Hid & Hlabel).
    rewrite Hprops.
    split; [|split; [|split; [|split]]].
    + destruct props as [props|];
        [apply js_get_reserved_overridden | apply lookup_empty].
    + destruct props as [props|];
        [apply js_get_reserved_overridden | apply lookup_empty].
    + intros k Hk1 Hk2. destruct props as [props|]; [|reflexivity].
      apply js_get_reserved_overridden; assumption.
    + cbn. rewrite js_get_insert_ne by discriminate.
      rewrite js_get_insert, Hid. reflexivity.
    + cbn. rewrite js_get_insert, Hlabel. reflexivity.
Qed.

End ReservedKeys.

Lemma reserved_keys_of_created_interval_witness :
  exists i w',
    createSequenceInterval (UG := Flat.uuids) (MT := Flat.mergeTree 11)
      "hl" "abc" (Some (Interior 2 After)) (Some (Interior 9 Before))
      (Flat.client 11) IntervalType.SlideOnRemove None None false
      (Some {[ "color" := VStr "red"; "intervalId" := VStr "mine" ]}) None
      (Flat.world ∅) = inr (i, w')
    /\ SequenceIntervalClass.properties i !! "intervalId" = None
    /\ SequenceIntervalClass.properties i !! "color" = Some (VStr "red").
Proof.
  eexists _, _. split; [exact eq_refl|].
  destruct (reserved_keys_of_created_interval (UG := Flat.uuids)
              (MT := Flat.mergeTree 11)) as [_ Hcreated].
  destruct (Hcreated
              "hl" "abc" (Some (Interior 2 After)) (Some (Interior 9 Before))
              (Flat.client 11) IntervalType.SlideOnRemove None None false
              (Some {[ "color" := VStr "red"; "intervalId" := VStr "mine" ]})
              None (Flat.world ∅) _ _ eq_refl) as (Hid & _ & Hother & _).
  split; [exact Hid|].
  rewrite Hother by discriminate. reflexivity.
Defined.

(** C9 as stated fails: the constructor removes nothing, so an interval
    constructed with a reserved key among its properties has that key in
    its property map. *)
Lemma constructor_keeps_reserved_keys :
  ~ (forall client id label start end_ intervalType (props : PropertySet)
       startSide endSide,
       SequenceIntervalClass.properties
         (SequenceIntervalClass.new client id label start end_ intervalType
            (Some props) startSide endSide) !! "intervalId" = None
       /\ SequenceIntervalClass.properties
            (SequenceIntervalClass.new client id label start end_ intervalType
               (Some props) startSide endSide) !! "referenceRangeLabels" = None).
Proof.
  intros H.
  destruct (H (Flat.client 11) "abc" "hl" (Flat.ref 0 144 2) (Flat.ref 1 160 9)
              IntervalType.SlideOnRemove {[ "intervalId" := VStr "mine" ]}
              (Some After) (Some Before)) as [Hid _].
  vm_compute in Hid. discriminate Hid.
Qed.

(** ** Overlap *)

Section Overlaps.

Context `{MT : MergeTree}.

(** C10: [overlaps] holds exactly when the start of the one is not after
    the end of the other and its end is not before the other's start,
    under the comparison of references; it is the same for any two pairs
    of intervals with the same four endpoints, whatever their sides, so an
    interval that ends with side Before where another starts with side
    After overlaps it; [overlapsPos] takes both inequalities strictly, and
    does not hold of a range that starts where the interval ends. *)
Theorem overlaps_ignores_sides :
  (forall a b,
     SequenceIntervalClass.overlaps a b = true
     <-> compareReferencePositions (SequenceIntervalClass.start a)
           (SequenceIntervalClass.end_ b) <= 0
         /\ compareReferencePositions (SequenceIntervalClass.end_ a)
              (SequenceIntervalClass.start b) >= 0)
  /\ (forall a b a' b',
        SequenceIntervalClass.start a' = SequenceIntervalClass.start a ->
        SequenceIntervalClass.end_ a' = SequenceIntervalClass.end_ a ->
        SequenceIntervalClass.start b' = SequenceIntervalClass.start b ->
        SequenceIntervalClass.end_ b' = SequenceIntervalClass.end_ b ->
        SequenceIntervalClass.overlaps a' b' = SequenceIntervalClass.overlaps a b)
  /\ (forall a b,
        SequenceIntervalClass.endSide a = Before ->
        SequenceIntervalClass.startSide b = After ->
        compareReferencePositions (SequenceIntervalClass.end_ a)
          (SequenceIntervalClass.start b) = 0 ->
        compareReferencePositions (SequenceIntervalClass.start a)
          (SequenceIntervalClass.end_ b) <= 0 ->
        SequenceIntervalClass.overlaps a b = true)
  /\ (forall a bstart bend,
        SequenceIntervalClass.overlapsPos a bstart bend = true
        <-> localReferencePositionToPosition (SequenceIntervalClass.client a)
              (SequenceIntervalClass.end_ a) > bstart
            /\ localReferencePositionToPosition (SequenceIntervalClass.client a)
                 (SequenceIntervalClass.start a) < bend)
  /\ (forall a bend,
        SequenceIntervalClass.overlapsPos a
          (localReferencePositionToPosition (SequenceIntervalClass.client a)
             (SequenceIntervalClass.end_ a)) bend = false).
Proof.
  assert (Hiff : forall a b,
             SequenceIntervalClass.overlaps a b = true
             <-> compareReferencePositions (SequenceIntervalClass.start a)
                   (SequenceIntervalClass.end_ b) <= 0
                 /\ compareReferencePositions (SequenceIntervalClass.end_ a)
                      (SequenceIntervalClass.start b) >= 0).
  { intros a b. unfold SequenceIntervalClass.overlaps.
    rewrite andb_true_iff, Z.leb_le, Z.geb_le. lia. }
  split; [exact Hiff|]. split; [|split; [|split]].
  - intros a b a' b' Hs He Hs' He'. unfold SequenceIntervalClass.overlaps.
    rewrite Hs, He, Hs', He'. reflexivity.
  - intros a b _ _ Htouch Hbefore. apply Hiff. lia.
  - intros a bstart bend. unfold SequenceIntervalClass.overlapsPos.
    rewrite andb_true_iff, Z.gtb_ltb, !Z.ltb_lt. lia.
  - intros a bend. unfold SequenceIntervalClass.overlapsPos.
    rewrite Z.gtb_ltb, Z.ltb_irrefl. reflexivity.
Qed.

End Overlaps.

Lemma overlaps_ignores_sides_witness :
  SequenceIntervalClass.overlaps (MT := Flat.mergeTree 11) interval_A interval_5_7
  = true
  /\ SequenceIntervalClass.overlapsPos interval_A 5 7 = false.
Proof.
  destruct (overlaps_ignores_sides (MT := Flat.mergeTree 11))
    as (_ & _ & Htouch & _ & Hpos).
  split.
  - apply Htouch; [reflexivity | reflexivity | reflexivity | ].
    vm_compute. discriminate.
  - exact (Hpos interval_A 7).
Defined.

(** ** The worked examples, evaluated *)

(** A, from 0 to 5, overlaps the positions 3 to 7, and comes before B. *)
Example interval_A_overlapsPos_3_7 :
  SequenceIntervalClass.overlapsPos interval_A 3 7 = true.
Proof. reflexivity. Qed.

Example interval_A_before_interval_B :
  SequenceIntervalClass.compare (MT := Flat.mergeTree 11) interval_A interval_B < 0.
Proof. reflexivity. Qed.

(** With the shared start, Before wins on the left and the later end is
    taken with its side. *)
Example union_4_6_with_4_8 :
  exists u w',
    SequenceIntervalClass.union (UG := Flat.uuids) (MT := Flat.mergeTree 11)
      interval_4_6 interval_4_8 (Flat.world ∅) = inr (u, w')
    /\ SequenceIntervalClass.startSide u = Before
    /\ SequenceIntervalClass.endSide u = Before
    /\ getOffset (SequenceIntervalClass.end_ u) = Some 8.
Proof. eexists _, _. split; [exact eq_refl|]. repeat split. Qed.

(** [modify] gives up when a sequenced op moves an endpoint of an interval
    whose references are still StayOnRemove: the factory asserts that
    references made for an op are SlideOnRemove. *)
Example modify_pending_with_op_asserts :
  SequenceIntervalClass.modify (UG := Flat.uuids) (MT := Flat.mergeTree 11)
    interval_A "x" (Some (Plain (PNum 1))) None
    (Some {| sequenceNumber := 7; minimumSequenceNumber := 3;
             referenceSequenceNumber := 6; clientId := Some "remote" |})
    None false world_after_A
  = inl (AssertionError 0x2f5).
Proof. reflexivity. Qed.

(** A local [modify] to a position outside the sequence finds no segment
    and is refused. *)
Example modify_outside_needs_segment :
  SequenceIntervalClass.modify (UG := Flat.uuids) (MT := Flat.mergeTree 11)
    interval_A "x" (Some (Plain (PNum 40))) None None None false world_after_A
  = inl (UsageError "Non-transient references need segment").
Proof. reflexivity. Qed.

(** A transient interval has both endpoints of reference type Transient. *)
Example createTransientInterval_refTypes :
  exists i w',
    createTransientInterval (UG := Flat.uuids) (MT := Flat.mergeTree 11)
      (Some (Plain (PNum 0))) (Some (Plain (PNum 5))) (Flat.client 11)
      (Flat.world ∅) = inr (i, w')
    /\ refType (SequenceIntervalClass.start i) = 256
    /\ refType (SequenceIntervalClass.end_ i) = 256
    /\ SequenceIntervalClass.label i = "transient".
Proof. eexists _, _. split; [exact eq_refl|]. repeat split. Qed.

(** A record without properties at all gets the same legacy id. *)
Example legacy_id_without_properties :
  sp_id (getSerializedProperties
           {| ser_start := Some (PNum 3); ser_end := Some (PNum 7);
              ser_intervalType := IntervalType.SlideOnRemove;
              ser_sequenceNumber := 0; ser_stickiness := None;
              ser_startSide := None; ser_endSide := None;
              ser_properties := None |})
  = VStr "legacy3-7".
Proof. reflexivity. Qed.

(** * Further properties of the code *)

(** ** Log levels *)

(** X1: every extended log level normalizes to a public log level; public
    levels are left as they are, and normalizing twice is normalizing
    once. *)
Theorem normalizeLogLevel_public (level : Z) :
  is_ExtendedLogLevel level ->
  is_LogLevel (normalizeLogLevel level)
  /\ (is_LogLevel level -> normalizeLogLevel level = level)
  /\ normalizeLogLevel (normalizeLogLevel level) = normalizeLogLevel level.
Proof.
  unfold is_ExtendedLogLevel, is_LogLevel.
  intros [-> | [-> | [-> | ->]]]; vm_compute; (split; [|split]);
    try reflexivity; try (intros _; reflexivity);
    try (left; reflexivity); try (right; left; reflexivity);
    try (right; right; reflexivity).
  intros [H | [H | H]]; discriminate H.
Qed.

Lemma normalizeLogLevel_public_witness :
  normalizeLogLevel ExtendedLogLevel.essential = LogLevel.default
  /\ is_LogLevel (normalizeLogLevel ExtendedLogLevel.essential).
Proof.
  split; [reflexivity|].
  apply (normalizeLogLevel_public ExtendedLogLevel.essential).
  right. right. left. reflexivity.
Defined.

(** X2: on extended log levels normalizing never raises a level and keeps
    the order of levels. *)
Theorem normalizeLogLevel_monotone (l1 l2 : Z) :
  is_ExtendedLogLevel l1 -> is_ExtendedLogLevel l2 -> l1 <= l2 ->
  normalizeLogLevel l1 <= normalizeLogLevel l2
  /\ normalizeLogLevel l1 <= l1.
Proof.
  unfold is_ExtendedLogLevel.
  intros [-> | [-> | [-> | ->]]] [-> | [-> | [-> | ->]]]; vm_compute;
    intros H; split; intros H'; try discriminate H'; apply H; reflexivity.
Qed.

Lemma normalizeLogLevel_monotone_witness :
  normalizeLogLevel ExtendedLogLevel.essential
  <= normalizeLogLevel ExtendedLogLevel.error
  /\ normalizeLogLevel ExtendedLogLevel.essential <= ExtendedLogLevel.essential.
Proof.
  apply normalizeLogLevel_monotone.
  - right. right. left. reflexivity.
  - right. right. right. reflexivity.
  - vm_compute. discriminate.
Defined.

(** X3: against a public threshold an event is logged at its extended
    level exactly when it is logged at its normalized level; against the
    threshold essential this fails, an essential event being logged and a
    default one not. *)
Theorem shouldLogAtLevel_normalized (level minLevel : Z) :
  is_ExtendedLogLevel level -> is_LogLevel minLevel ->
  shouldLogAtLevel (normalizeLogLevel level) minLevel
  = shouldLogAtLevel level minLevel
  /\ shouldLogAtLevel ExtendedLogLevel.essential ExtendedLogLevel.essential = true
  /\ shouldLogAtLevel (normalizeLogLevel ExtendedLogLevel.essential)
       ExtendedLogLevel.essential = false.
Proof.
  unfold is_ExtendedLogLevel, is_LogLevel.
  intros [-> | [-> | [-> | ->]]] [-> | [-> | ->]]; repeat split.
Qed.

Lemma shouldLogAtLevel_normalized_witness :
  shouldLogAtLevel (normalizeLogLevel ExtendedLogLevel.essential) LogLevel.error
  = shouldLogAtLevel ExtendedLogLevel.essential LogLevel.error.
Proof.
  apply (shouldLogAtLevel_normalized ExtendedLogLevel.essential LogLevel.error).
  - right. right. left. reflexivity.
  - right. right. reflexivity.
Defined.

(** X4: among the extended log levels, [isExtendedLogLevel] holds of
    exactly those that are not public log levels, which are exactly those
    that normalizing changes. *)
Theorem isExtendedLogLevel_iff (level : Z) :
  is_ExtendedLogLevel level ->
  (isExtendedLogLevel level = true <-> ~ is_LogLevel level)
  /\ (isExtendedLogLevel level = true <-> normalizeLogLevel level <> level).
Proof.
  unfold is_ExtendedLogLevel, is_LogLevel.
  intros [-> | [-> | [-> | ->]]]; vm_compute; repeat split;
    try (intros H; discriminate H);
    try (intros H; exfalso; apply H; auto; fail);
    try (intros _ H; discriminate H);
    try (intros _ [H | [H | H]]; discriminate H).
Qed.

Lemma isExtendedLogLevel_iff_witness :
  isExtendedLogLevel ExtendedLogLevel.error = true
  <-> ~ is_LogLevel ExtendedLogLevel.error.
Proof.
  apply (isExtendedLogLevel_iff ExtendedLogLevel.error).
  right. right. right. reflexivity.
Defined.

(** ** The endpoint factory, case by case *)

Section FactoryCases.

Context `{UG : UuidGenerator} `{MT : MergeTree}.

Lemma createPositionReferenceFromSegoff_eq
    client segoff rt op localSeq fromSnapshot sp cse rollback (w : World) :
  createPositionReferenceFromSegoff client segoff rt op localSeq fromSnapshot
    sp cse rollback w
  = if segment_undefined segoff
       && (negb (is_defined op) && negb (truthy_number localSeq)
           && negb (truthy_boolean fromSnapshot)
           && negb (refTypeIncludesFlag rt ReferenceType.Transient)
           && negb (truthy_boolean rollback))
    then inl (UsageError "Non-transient references need segment")
    else inr (reference_at (next_oid w) segoff rt sp cse, allocated w).
Proof.
  destruct segoff as [e | [segment|] offset | ]; cbn [segment_undefined andb];
    cbn [createPositionReferenceFromSegoff];
    try reflexivity;
    match goal with
    | |- context [if ?c then _ else _] => destruct c; reflexivity
    end.
Qed.

Lemma createPositionReference_eq
    client pos rt op fromSnapshot localSeq sp exclusive useNew rollback (w : World) :
  createPositionReference client pos rt op fromSnapshot localSeq sp exclusive
    useNew rollback w
  = match op with
    | Some o =>
        if refTypeIncludesFlag rt ReferenceType.SlideOnRemove
        then createPositionReferenceFromSegoff client
               match pos with
               | PEndpoint e => SegoffEndpoint e
               | PNum n =>
                   getSlideToSegoff
                     (getContainingSegment client n
                        (Some (referenceSequenceNumber o, clientId o)) None)
                     sp useNew
               end rt op localSeq fromSnapshot sp (Some exclusive) rollback w
        else inl (AssertionError 0x2f5)
    | None =>
        if negb (refTypeIncludesFlag rt ReferenceType.SlideOnRemove)
           || truthy_boolean fromSnapshot
        then createPositionReferenceFromSegoff client
               match pos with
               | PEndpoint e => SegoffEndpoint e
               | PNum n => getContainingSegment client n None localSeq
               end rt op localSeq fromSnapshot sp (Some exclusive) rollback w
        else inl (AssertionError 0x2f6)
    end.
Proof.
  unfold createPositionReference, refTypeIncludesFlag, mbind, M_bind, assert.
  destruct op as [o|].
  - destruct (js_and rt ReferenceType.SlideOnRemove =? 0); reflexivity.
  - rewrite negb_involutive.
    destruct (js_and rt ReferenceType.SlideOnRemove =? 0),
      (truthy_boolean fromSnapshot); reflexivity.
Qed.

Lemma createPositionReferenceFromSegoff_no_assertion
    client segoff rt op localSeq fromSnapshot sp cse rollback (w : World) code :
  createPositionReferenceFromSegoff client segoff rt op localSeq fromSnapshot
    sp cse rollback w <> inl (AssertionError code).
Proof.
  rewrite createPositionReferenceFromSegoff_eq.
  destruct (_ && _); discriminate.
Qed.

(** X5: [createPositionReference] fails assertion 0x2f5 exactly when it is
    given an op and a reference type without SlideOnRemove, and assertion
    0x2f6 exactly when it is given no op and a reference type with
    SlideOnRemove that does not come from a snapshot; it fails no other
    assertion. *)
Theorem createPositionReference_assertions
    client pos rt op fromSnapshot localSeq sp exclusive useNew rollback (w : World) :
  let result :=
    createPositionReference client pos rt op fromSnapshot localSeq sp exclusive
      useNew rollback w in
  (result = inl (AssertionError 0x2f5)
   <-> op <> None /\ refTypeIncludesFlag rt ReferenceType.SlideOnRemove = false)
  /\ (result = inl (AssertionError 0x2f6)
      <-> op = None /\ refTypeIncludesFlag rt ReferenceType.SlideOnRemove = true
          /\ fromSnapshot <> Some true)
  /\ (forall code, result = inl (AssertionError code) ->
        code = 0x2f5 \/ code = 0x2f6).
Proof.
  cbn zeta. rewrite createPositionReference_eq.
  assert (Hfs : truthy_boolean fromSnapshot = true <-> fromSnapshot = Some true)
    by (destruct fromSnapshot as [[]|]; cbn; split; congruence).
  pose proof (createPositionReferenceFromSegoff_no_assertion) as Hno.
  destruct op as [o|];
    destruct (refTypeIncludesFlag rt ReferenceType.SlideOnRemove);
    cbn [negb orb];
    try destruct (truthy_boolean fromSnapshot) eqn:Hsnap.
  all: (split; [split | split; [split | ]]).
  all: try (intros H; exfalso; eapply Hno; exact H).
  all: try (intros code H; exfalso; eapply Hno; exact H).
  all: try (intros H; discriminate H).
  all: try (intros _; split; [discriminate | reflexivity]).
  all: try (intros [H1 H2]; first [congruence | discriminate H2 | reflexivity]).
  all: try (intros (H1 & H2 & H3);
            first [congruence | discriminate H2
                  | exfalso; apply H3, Hfs; reflexivity | reflexivity]).
  all: try (intros code H; injection H as <-; auto).
  all: try (intros _; split; [reflexivity | split; [reflexivity|]];
            intros H; apply Hfs in H; discriminate H).
Qed.

End FactoryCases.

(** ** Creating intervals, case by case *)

Section CreationCases.

Context `{UG : UuidGenerator} `{MT : MergeTree}.

(** [createPositionReference] in one formula: the assertion, then the
    refusal of a reference without a segment, then the reference. *)
Lemma createPositionReference_formula
    client pos rt op fromSnapshot localSeq sp exclusive useNew rollback (w : World) :
  createPositionReference client pos rt op fromSnapshot localSeq sp exclusive
    useNew rollback w
  = match failed_assertion rt op fromSnapshot with
    | Some code => inl (AssertionError code)
    | None =>
        if segment_undefined (segoff_for client pos op localSeq sp useNew)
           && must_have_segment rt op localSeq fromSnapshot rollback
        then inl (UsageError "Non-transient references need segment")
        else inr (reference_at (next_oid w)
                    (segoff_for client pos op localSeq sp useNew) rt sp
                    (Some exclusive), allocated w)
    end.
Proof.
  rewrite createPositionReference_eq. unfold failed_assertion, segoff_for.
  destruct op as [o|];
    match goal with
    | |- context [if ?c then _ else _] => destruct c; [|reflexivity]
    end;
    rewrite createPositionReferenceFromSegoff_eq;
    destruct pos; reflexivity.
Qed.

(** [createSequenceInterval] as its two calls of the endpoint factory. *)
Lemma createSequenceInterval_run label id start end_ client intervalType op
    fromSnapshot useNew props rollback (w : World) :
  createSequenceInterval label id start end_ client intervalType op
    fromSnapshot useNew props rollback w
  = let startPos := place_pos_or EStart start in
    let endPos := place_pos_or EEnd end_ in
    let startSide := place_side_or_before start in
    let endSide := place_side_or_before end_ in
    let stickiness :=
      computeStickinessFromSide (Some startPos) startSide (Some endPos) endSide in
    let rangeProp : PropertySet :=
      {[ reservedRangeLabelsKey := VArr [VStr label] ]} in
    match createPositionReference client startPos
            (endpointRefTypes intervalType op fromSnapshot).1 op fromSnapshot None
            (Some (startReferenceSlidingPreference stickiness))
            (SlidingPreference_eqb
               (startReferenceSlidingPreference stickiness) BACKWARD)
            useNew rollback w
    with
    | inl e => inl e
    | inr (startLref, w1) =>
        match createPositionReference client endPos
                (endpointRefTypes intervalType op fromSnapshot).2 op
                fromSnapshot None
                (Some (endReferenceSlidingPreference stickiness))
                (SlidingPreference_eqb
                   (endReferenceSlidingPreference stickiness) FORWARD)
                useNew rollback w1
        with
        | inl e => inl e
        | inr (endLref, w2) =>
            inr (SequenceIntervalClass.new client id label
                   (lref_addProperties startLref rangeProp)
                   (lref_addProperties endLref rangeProp)
                   intervalType (reserved_overridden <$> props)
                   (Some startSide) (Some endSide), w2)
        end
    end.
Proof.
  unfold createSequenceInterval.
  destruct (endpointRefTypes intervalType op fromSnapshot) as [b e].
  destruct start as [[p|n s]|], end_ as [[p'|n' s']|];
    cbv beta iota zeta delta
      [endpointPosAndSide pas_startPos pas_endPos pas_startSide pas_endSide
       place_pos place_side default from_option Datatypes.id place_pos_or
       place_side_or_before fst snd mbind M_bind mret M_ret];
    repeat match goal with
           | |- context [match ?c with inl _ => _ | inr _ => _ end] =>
               destruct c as [?|[? ?]]
           end; reflexivity.
Qed.

Lemma endpointRefTypes_acknowledged intervalType op fromSnapshot :
  intervalType <> IntervalType.Transient ->
  op <> None \/ fromSnapshot = Some true ->
  endpointRefTypes intervalType op fromSnapshot = (80, 96).
Proof.
  intros Hkind Horigin. unfold endpointRefTypes.
  assert (op_or_fromSnapshot op fromSnapshot = true) as ->.
  { destruct op; [reflexivity|]. destruct Horigin as [H | ->]; [congruence|].
    reflexivity. }
  destruct intervalType; try congruence; reflexivity.
Qed.

Lemma reference_at_segment oid segoff rt sp cse :
  (getSegment (reference_at oid segoff rt sp cse) = None
   <-> segment_undefined segoff = true)
  /\ (segment_undefined segoff = true ->
      reference_at oid segoff rt sp cse = detachedReference oid sp rt).
Proof.
  destruct segoff as [?|[?|] ?|]; cbn; repeat split;
    intros H; first [discriminate H | reflexivity].
Qed.

(** X6: creating an interval that is not transient from an op or from a
    snapshot never fails: an endpoint for which no segment is found becomes
    a detached reference (a new object on no segment, with the sliding
    preference, the SlideOnRemove reference type and the label, and nothing
    else), and only such an endpoint is on no segment. *)
Theorem createSequenceInterval_acknowledged_returns label id start end_ client
    intervalType op fromSnapshot useNew props rollback (w : World) :
  intervalType <> IntervalType.Transient ->
  op <> None \/ fromSnapshot = Some true ->
  let stickiness :=
    computeStickinessFromSide (Some (place_pos_or EStart start))
      (place_side_or_before start) (Some (place_pos_or EEnd end_))
      (place_side_or_before end_) in
  let startPreference := startReferenceSlidingPreference stickiness in
  let endPreference := endReferenceSlidingPreference stickiness in
  let startSegoff :=
    segoff_for client (place_pos_or EStart start) op None
      (Some startPreference) useNew in
  let endSegoff :=
    segoff_for client (place_pos_or EEnd end_) op None
      (Some endPreference) useNew in
  exists i,
    createSequenceInterval label id start end_ client intervalType op
      fromSnapshot useNew props rollback w
    = inr (i, allocated (allocated w))
    /\ (getSegment (SequenceIntervalClass.start i) = None
        <-> segment_undefined startSegoff = true)
    /\ (getSegment (SequenceIntervalClass.end_ i) = None
        <-> segment_undefined endSegoff = true)
    /\ (segment_undefined startSegoff = true ->
        SequenceIntervalClass.start i
        = lref_addProperties
            (detachedReference (next_oid w) (Some startPreference)
               (js_or ReferenceType.RangeBegin ReferenceType.SlideOnRemove))
            {[ "referenceRangeLabels" := VArr [VStr label] ]})
    /\ (segment_undefined endSegoff = true ->
        SequenceIntervalClass.end_ i
        = lref_addProperties
            (detachedReference (S (next_oid w)) (Some endPreference)
               (js_or ReferenceType.RangeEnd ReferenceType.SlideOnRemove))
            {[ "referenceRangeLabels" := VArr [VStr label] ]}).
Proof.
  intros Hkind Horigin. cbn zeta.
  rewrite createSequenceInterval_run. cbn zeta.
  rewrite (endpointRefTypes_acknowledged _ _ _ Hkind Horigin). cbn [fst snd].
  assert (Hassert : forall rt,
             refTypeIncludesFlag rt ReferenceType.SlideOnRemove = true ->
             failed_assertion rt op fromSnapshot = None).
  { intros rt Hrt. unfold failed_assertion. rewrite Hrt.
    destruct op; [reflexivity|]. destruct Horigin as [H | ->]; [congruence|].
    reflexivity. }
  assert (Hguard : forall rt, must_have_segment rt op None fromSnapshot rollback
                              = false).
  { intros rt. unfold must_have_segment.
    destruct op; [reflexivity|]. destruct Horigin as [H | ->]; [congruence|].
    reflexivity. }
  rewrite createPositionReference_formula, Hassert, Hguard, andb_false_r
    by reflexivity.
  rewrite createPositionReference_formula, Hassert, Hguard, andb_false_r
    by reflexivity.
  eexists. split; [reflexivity|].
  cbn [SequenceIntervalClass.start SequenceIntervalClass.end_
       SequenceIntervalClass.new lref_addProperties getSegment next_oid
       allocated].
  split; [apply reference_at_segment|]. split; [apply reference_at_segment|].
  split; intros Hnone; f_equal;
    apply (reference_at_segment _ _ _ _ _), Hnone.
Qed.

Lemma segment_undefined_local client pos sp useNew :
  segment_undefined (segoff_for client pos None None sp useNew)
  = negb (position_resolves client None pos).
Proof. destruct pos; cbn; [rewrite negb_involutive|]; reflexivity. Qed.

(** X7: creating a non-transient interval locally (no op, not from a
    snapshot, not in a rollback) returns the interval when both endpoints
    find a place, a sentinel or a segment, and is refused with "Non-transient
    references need segment" when one of them does not; it never fails an
    assertion. *)
Theorem createSequenceInterval_local label id start end_ client intervalType
    fromSnapshot useNew props rollback (w : World) :
  intervalType <> IntervalType.Transient ->
  fromSnapshot <> Some true -> rollback <> Some true ->
  let resolved :=
    position_resolves client None (place_pos_or EStart start)
    && position_resolves client None (place_pos_or EEnd end_) in
  (resolved = true ->
   exists i,
     createSequenceInterval label id start end_ client intervalType None
       fromSnapshot useNew props rollback w
     = inr (i, allocated (allocated w)))
  /\ (resolved = false ->
      createSequenceInterval label id start end_ client intervalType None
        fromSnapshot useNew props rollback w
      = inl (UsageError "Non-transient references need segment")).
Proof.
  intros Hkind Hsnap Hrollback. cbn zeta.
  rewrite createSequenceInterval_run. cbn zeta.
  assert (Hfs : truthy_boolean fromSnapshot = false)
    by (destruct fromSnapshot as [[]|]; cbn; congruence).
  assert (Hrb : truthy_boolean rollback = false)
    by (destruct rollback as [[]|]; cbn; congruence).
  assert (Hrts : endpointRefTypes intervalType None fromSnapshot = (144, 160)).
  { unfold endpointRefTypes. cbn [op_or_fromSnapshot]. rewrite Hfs.
    destruct intervalType; try congruence; reflexivity. }
  rewrite Hrts. cbn [fst snd].
  assert (Hassert : failed_assertion 144 None fromSnapshot = None
                    /\ failed_assertion 160 None fromSnapshot = None)
    by (split; reflexivity).
  assert (Hguard : must_have_segment 144 None None fromSnapshot rollback = true
                   /\ must_have_segment 160 None None fromSnapshot rollback = true).
  { unfold must_have_segment. rewrite Hfs, Hrb. split; reflexivity. }
  destruct Hassert as [Ha1 Ha2], Hguard as [Hg1 Hg2].
  rewrite createPositionReference_formula, Ha1, Hg1, andb_true_r,
    segment_undefined_local.
  destruct (position_resolves client None (place_pos_or EStart start));
    cbn [negb andb]; [|split; [intros H; discriminate H | reflexivity]].
  rewrite createPositionReference_formula, Ha2, Hg2, andb_true_r,
    segment_undefined_local.
  destruct (position_resolves client None (place_pos_or EEnd end_));
    cbn [negb]; split; try (intros H; discriminate H); try reflexivity.
  intros _. eexists. reflexivity.
Qed.

(** X8: a transient interval cannot be created from an op: the reference
    type Transient lacks SlideOnRemove, and the factory asserts it for
    every reference made for an op. *)
Theorem createSequenceInterval_transient_op_asserts label id start end_ client
    (o : ISequencedDocumentMessage) fromSnapshot useNew props rollback (w : World) :
  createSequenceInterval label id start end_ client IntervalType.Transient
    (Some o) fromSnapshot useNew props rollback w
  = inl (AssertionError 0x2f5).
Proof.
  rewrite createSequenceInterval_run. cbn zeta.
  rewrite createPositionReference_formula. reflexivity.
Qed.

(** X9: [createTransientInterval] always returns: its interval is
    labelled "transient", has the id drawn from the uuid generator and two
    new references of type Transient; an endpoint is on no segment exactly
    when its position is a number for which the client finds no segment,
    and it is then a detached reference. *)
Theorem createTransientInterval_returns start end_ client (w : World) :
  exists i w',
    createTransientInterval start end_ client w = inr (i, w')
    /\ SequenceIntervalClass.label i = "transient"
    /\ SequenceIntervalClass.id i = (uuid_draw (uuid_state w)).1
    /\ SequenceIntervalClass.intervalType i = IntervalType.Transient
    /\ refType (SequenceIntervalClass.start i) = ReferenceType.Transient
    /\ refType (SequenceIntervalClass.end_ i) = ReferenceType.Transient
    /\ lref_oid (SequenceIntervalClass.start i) = next_oid w
    /\ lref_oid (SequenceIntervalClass.end_ i) = S (next_oid w)
    /\ next_oid w' = S (S (next_oid w))
    /\ uuid_state w' = (uuid_draw (uuid_state w)).2
    /\ (getSegment (SequenceIntervalClass.start i) = None
        <-> position_resolves client None (place_pos_or EStart start) = false)
    /\ (getSegment (SequenceIntervalClass.end_ i) = None
        <-> position_resolves client None (place_pos_or EEnd end_) = false)
    /\ (position_resolves client None (place_pos_or EStart start) = false ->
        getOffset (SequenceIntervalClass.start i) = None
        /\ canSlideToEndpoint (SequenceIntervalClass.start i) = None)
    /\ (position_resolves client None (place_pos_or EEnd end_) = false ->
        getOffset (SequenceIntervalClass.end_ i) = None
        /\ canSlideToEndpoint (SequenceIntervalClass.end_ i) = None).
Proof.
  unfold createTransientInterval, mbind, M_bind, uuid.
  destruct (uuid_draw (uuid_state w)) as [u g]. cbn [fst snd].
  rewrite createSequenceInterval_run. cbn zeta.
  rewrite createPositionReference_formula.
  change (failed_assertion (endpointRefTypes IntervalType.Transient None None).1
            None None) with (@None Z).
  change (must_have_segment (endpointRefTypes IntervalType.Transient None None).1
            None None None None) with false.
  rewrite andb_false_r.
  rewrite createPositionReference_formula.
  change (failed_assertion (endpointRefTypes IntervalType.Transient None None).2
            None None) with (@None Z).
  change (must_have_segment (endpointRefTypes IntervalType.Transient None None).2
            None None None None) with false.
  rewrite andb_false_r.
  eexists _, _. split; [reflexivity|].
  cbn [SequenceIntervalClass.start SequenceIntervalClass.end_
       SequenceIntervalClass.new SequenceIntervalClass.label
       SequenceIntervalClass.id SequenceIntervalClass.intervalType
       lref_addProperties getSegment getOffset canSlideToEndpoint refType
       lref_oid next_oid uuid_state allocated].
  assert (Hfields : forall oid segoff rt sp cse,
             lref_oid (reference_at oid segoff rt sp cse) = oid
             /\ refType (reference_at oid segoff rt sp cse) = rt)
    by (intros ? [?|[?|] ?|] ? ? ?; split; reflexivity).
  assert (Hlocal : forall pos sp,
             segment_undefined (segoff_for client pos None None sp false) = true
             <-> position_resolves client None pos = false).
  { intros pos sp. destruct pos; cbn; [|split; intros H; discriminate H].
    rewrite negb_false_iff. reflexivity. }
  repeat match goal with |- _ /\ _ => split end;
    try reflexivity; try apply Hfields.
  - rewrite <- Hlocal. apply reference_at_segment.
  - rewrite <- Hlocal. apply reference_at_segment.
  - intros H.
    erewrite (proj2 (reference_at_segment _ _ _ _ _) (proj2 (Hlocal _ _) H)).
    split; reflexivity.
  - intros H.
    erewrite (proj2 (reference_at_segment _ _ _ _ _) (proj2 (Hlocal _ _) H)).
    split; reflexivity.
Qed.

Lemma reference_at_fields oid segoff rt sp cse :
  lref_oid (reference_at oid segoff rt sp cse) = oid
  /\ refType (reference_at oid segoff rt sp cse) = rt
  /\ lref_properties (reference_at oid segoff rt sp cse) = None.
Proof. destruct segoff as [?|[?|] ?|]; repeat split. Qed.

Lemma addProperties_empty_singleton (k : string) (v : Value) :
  v <> VNull -> v <> VUndefined ->
  addProperties ∅ {[ k := v ]} = {[ k := v ]}.
Proof.
  intros Hv Hu. apply map_eq. intros k'. rewrite addProperties_lookup.
  destruct (decide (k = k')) as [<-|Hne].
  - rewrite lookup_singleton_eq. destruct v; congruence.
  - rewrite lookup_singleton_ne by exact Hne. apply lookup_empty.
Qed.

(** The two endpoints of a created interval, as the factory made them. *)
Lemma createSequenceInterval_endpoints label id start end_ client intervalType
    op fromSnapshot useNew props rollback (w w' : World) i :
  createSequenceInterval label id start end_ client intervalType op
    fromSnapshot useNew props rollback w = inr (i, w') ->
  exists s e,
    SequenceIntervalClass.start i
    = lref_addProperties s {[ reservedRangeLabelsKey := VArr [VStr label] ]}
    /\ SequenceIntervalClass.end_ i
       = lref_addProperties e {[ reservedRangeLabelsKey := VArr [VStr label] ]}
    /\ lref_oid s = next_oid w /\ lref_oid e = S (next_oid w)
    /\ lref_properties s = None /\ lref_properties e = None
    /\ w' = allocated (allocated w).
Proof.
  rewrite createSequenceInterval_run. cbn zeta.
  rewrite createPositionReference_formula.
  destruct (failed_assertion _ _ _); [intros H; discriminate H|].
  destruct (_ && _); [intros H; discriminate H|].
  rewrite createPositionReference_formula.
  destruct (failed_assertion _ _ _); [intros H; discriminate H|].
  destruct (_ && _); [intros H; discriminate H|].
  intros H. injection H as <- <-.
  eexists _, _. split; [reflexivity|]. split; [reflexivity|].
  repeat split; apply reference_at_fields.
Qed.

(** X10: a created interval has two new references, the start the next
    object to be allocated and the end the one after it, so the two are
    never one object; nothing is drawn from the uuid generator. *)
Theorem createSequenceInterval_allocates label id start end_ client intervalType
    op fromSnapshot useNew props rollback (w w' : World) i :
  createSequenceInterval label id start end_ client intervalType op
    fromSnapshot useNew props rollback w = inr (i, w') ->
  lref_oid (SequenceIntervalClass.start i) = next_oid w
  /\ lref_oid (SequenceIntervalClass.end_ i) = S (next_oid w)
  /\ same_object (SequenceIntervalClass.start i) (SequenceIntervalClass.end_ i)
     = false
  /\ next_oid w' = S (S (next_oid w))
  /\ uuid_state w' = uuid_state w.
Proof.
  intros H.
  apply createSequenceInterval_endpoints in H
    as (s & e & -> & -> & Hs & He & _ & _ & ->).
  unfold same_object. cbn. rewrite Hs, He.
  repeat split. apply Nat.eqb_neq. lia.
Qed.

(** X11: both references of a created interval carry the label of the
    interval, as the one-element list under "referenceRangeLabels", and
    nothing else. *)
Theorem createSequenceInterval_labels_endpoints label id start end_ client
    intervalType op fromSnapshot useNew props rollback (w w' : World) i :
  createSequenceInterval label id start end_ client intervalType op
    fromSnapshot useNew props rollback w = inr (i, w') ->
  lref_properties (SequenceIntervalClass.start i)
  = Some {[ "referenceRangeLabels" := VArr [VStr label] ]}
  /\ lref_properties (SequenceIntervalClass.end_ i)
     = Some {[ "referenceRangeLabels" := VArr [VStr label] ]}
  /\ SequenceIntervalClass.label i = label.
Proof.
  intros H.
  pose proof (createSequenceInterval_inr _ _ _ _ _ _ _ _ _ _ _ _ _ _ H)
    as (_ & _ & _ & _ & Hlabel).
  apply createSequenceInterval_endpoints in H
    as (s & e & -> & -> & _ & _ & Hs & He & _).
  unfold lref_addProperties. cbn [lref_properties]. rewrite Hs, He.
  change (default ∅ (@None PropertySet)) with (∅ : PropertySet).
  unfold reservedRangeLabelsKey.
  rewrite addProperties_empty_singleton by discriminate.
  repeat split. exact Hlabel.
Qed.

End CreationCases.

Lemma createSequenceInterval_acknowledged_returns_witness :
  exists i,
    createSequenceInterval (UG := Flat.uuids) (MT := Flat.mergeTree 11)
      "x" "R" (Some (Plain (PNum 40))) None (Flat.client 11)
      IntervalType.SlideOnRemove (Some remote_op) None false None None
      (Flat.world ∅)
    = inr (i, allocated (allocated (Flat.world ∅)))
    /\ getSegment (SequenceIntervalClass.start i) = None
    /\ getSegment (SequenceIntervalClass.end_ i)
       = Some (EndpointSegment EEnd).
Proof.
  destruct (createSequenceInterval_acknowledged_returns (UG := Flat.uuids)
              (MT := Flat.mergeTree 11)
              "x" "R" (Some (Plain (PNum 40))) None (Flat.client 11)
              IntervalType.SlideOnRemove (Some remote_op) None false None None
              (Flat.world ∅))
    as (i & Hrun & Hstart & _ & _ & _).
  - discriminate.
  - left. discriminate.
  - exists i. split; [exact Hrun|]. split; [apply Hstart; reflexivity|].
    injection Hrun as <-. reflexivity.
Defined.

Lemma createSequenceInterval_local_witness :
  (exists i,
     createSequenceInterval (UG := Flat.uuids) (MT := Flat.mergeTree 11)
       "x" "A" (Some (Plain (PNum 0))) (Some (Plain (PNum 5))) (Flat.client 11)
       IntervalType.SlideOnRemove None None false None None (Flat.world ∅)
     = inr (i, allocated (allocated (Flat.world ∅))))
  /\ createSequenceInterval (UG := Flat.uuids) (MT := Flat.mergeTree 11)
       "x" "A" (Some (Plain (PNum 0))) (Some (Plain (PNum 40))) (Flat.client 11)
       IntervalType.SlideOnRemove None None false None None (Flat.world ∅)
     = inl (UsageError "Non-transient references need segment").
Proof.
  split.
  - apply (createSequenceInterval_local (UG := Flat.uuids)
             (MT := Flat.mergeTree 11) "x" "A" (Some (Plain (PNum 0)))
             (Some (Plain (PNum 5))) (Flat.client 11)
             IntervalType.SlideOnRemove None false None None (Flat.world ∅));
      (discriminate || reflexivity).
  - apply (createSequenceInterval_local (UG := Flat.uuids)
             (MT := Flat.mergeTree 11) "x" "A" (Some (Plain (PNum 0)))
             (Some (Plain (PNum 40))) (Flat.client 11)
             IntervalType.SlideOnRemove None false None None (Flat.world ∅));
      (discriminate || reflexivity).
Defined.

Lemma createSequenceInterval_allocates_witness :
  exists i w',
    createSequenceInterval (UG := Flat.uuids) (MT := Flat.mergeTree 11)
      "x" "A" (Some (Plain (PNum 0))) (Some (Plain (PNum 5))) (Flat.client 11)
      IntervalType.SlideOnRemove None None false None None world_after_A
    = inr (i, w')
    /\ lref_oid (SequenceIntervalClass.start i) = 2%nat
    /\ lref_oid (SequenceIntervalClass.end_ i) = 3%nat
    /\ next_oid w' = 4%nat.
Proof.
  eexists _, _. split; [exact eq_refl|].
  destruct (createSequenceInterval_allocates (UG := Flat.uuids)
              (MT := Flat.mergeTree 11)
              "x" "A" (Some (Plain (PNum 0))) (Some (Plain (PNum 5)))
              (Flat.client 11) IntervalType.SlideOnRemove None None false None
              None world_after_A _ _ eq_refl) as (Hs & He & _ & Hw & _).
  split; [exact Hs|]. split; [exact He | exact Hw].
Defined.

Lemma createSequenceInterval_labels_endpoints_witness :
  exists i w',
    createSequenceInterval (UG := Flat.uuids) (MT := Flat.mergeTree 11)
      "hl" "abc" (Some (Interior 2 After)) (Some (Interior 9 Before))
      (Flat.client 11) IntervalType.SlideOnRemove None None false None None
      (Flat.world ∅) = inr (i, w')
    /\ lref_properties (SequenceIntervalClass.start i)
       = Some {[ "referenceRangeLabels" := VArr [VStr "hl"] ]}.
Proof.
  eexists _, _. split; [exact eq_refl|].
  destruct (createSequenceInterval_labels_endpoints (UG := Flat.uuids)
              (MT := Flat.mergeTree 11)
              "hl" "abc" (Some (Interior 2 After)) (Some (Interior 9 Before))
              (Flat.client 11) IntervalType.SlideOnRemove None None false None
              None (Flat.world ∅) _ _ eq_refl) as (Hs & _).
  exact Hs.
Defined.

(** ** Modifying intervals, case by case *)

Section ModifyCases.

Context `{UG : UuidGenerator} `{MT : MergeTree}.

(** The properties of the reference that [modify] keeps or makes for one
    place: those of the old reference, added to the new one. *)
Lemma modify_endpoint_properties (client : Client) (old : LocalReferencePosition)
    (place : option Pos) op localSeq sp exclusive useNew (w w' : World) r :
  match place with
  | Some pos =>
      ref ← createPositionReference client pos
              (SequenceIntervalClass.getRefType op (refType old))
              op None localSeq sp exclusive useNew None;
      mret (SequenceIntervalClass.copy_ref_properties old ref)
  | None => mret old
  end w = inr (r, w') ->
  lref_properties r
  = match place with
    | Some _ => addProperties ∅ <$> lref_properties old
    | None => lref_properties old
    end.
Proof.
  destruct place as [pos|]; intros H.
  - apply bind_inr in H as (ref & w1 & Href & H).
    apply createPositionReference_inr in Href as (_ & _ & Hprops & _).
    injection H as <- <-.
    unfold SequenceIntervalClass.copy_ref_properties.
    destruct (lref_properties old) as [props|]; cbn; [|exact Hprops].
    rewrite Hprops. reflexivity.
  - injection H as <- <-. reflexivity.
Qed.

(** What [modify] keeps of the interval, and the sides and the endpoint
    properties of its result. *)
Lemma modify_shape (this : SequenceIntervalClass.t) label start end_ op localSeq
    useNew (w w' : World) i' :
  SequenceIntervalClass.modify this label start end_ op localSeq useNew w
  = inr (i', w') ->
  SequenceIntervalClass.label i' = SequenceIntervalClass.label this
  /\ SequenceIntervalClass.intervalType i' = SequenceIntervalClass.intervalType this
  /\ SequenceIntervalClass.properties i' = SequenceIntervalClass.properties this
  /\ SequenceIntervalClass.propertyManager i'
     = SequenceIntervalClass.propertyManager this
  /\ SequenceIntervalClass.startSide i'
     = default (SequenceIntervalClass.startSide this) (place_side start)
  /\ SequenceIntervalClass.endSide i'
     = default (SequenceIntervalClass.endSide this) (place_side end_)
  /\ lref_properties (SequenceIntervalClass.start i')
     = match start with
       | Some _ => addProperties ∅ <$> lref_properties (SequenceIntervalClass.start this)
       | None => lref_properties (SequenceIntervalClass.start this)
       end
  /\ lref_properties (SequenceIntervalClass.end_ i')
     = match end_ with
       | Some _ => addProperties ∅ <$> lref_properties (SequenceIntervalClass.end_ this)
       | None => lref_properties (SequenceIntervalClass.end_ this)
       end.
Proof.
  unfold SequenceIntervalClass.modify. intros H.
  apply bind_inr in H as (startRef & w1 & Hstart & H).
  apply bind_inr in H as (endRef & w2 & Hend & H).
  apply modify_endpoint_properties in Hstart.
  apply modify_endpoint_properties in Hend.
  injection H as <- <-. cbn.
  repeat split.
  - rewrite Hstart. destruct start as [[p|n s]|]; reflexivity.
  - rewrite Hend. destruct end_ as [[p|n s]|]; reflexivity.
Qed.

(** X12: [modify] does not use the label it is given: its result has the
    label of the interval modified, and also its type, its properties and
    their manager; each side is the side of the place given, or the old
    side without a place. *)
Theorem modify_keeps_label_and_properties (this : SequenceIntervalClass.t)
    label start end_ op localSeq useNew (w w' : World) i' :
  SequenceIntervalClass.modify this label start end_ op localSeq useNew w
  = inr (i', w') ->
  SequenceIntervalClass.label i' = SequenceIntervalClass.label this
  /\ SequenceIntervalClass.intervalType i' = SequenceIntervalClass.intervalType this
  /\ SequenceIntervalClass.properties i' = SequenceIntervalClass.properties this
  /\ SequenceIntervalClass.propertyManager i'
     = SequenceIntervalClass.propertyManager this
  /\ SequenceIntervalClass.startSide i'
     = match start with
       | Some (Plain _) => Before
       | Some (Interior _ side) => side
       | None => SequenceIntervalClass.startSide this
       end
  /\ SequenceIntervalClass.endSide i'
     = match end_ with
       | Some (Plain _) => Before
       | Some (Interior _ side) => side
       | None => SequenceIntervalClass.endSide this
       end.
Proof.
  intros H. apply modify_shape in H
    as (Hlabel & Htype & Hprops & Hmanager & Hs & He & _).
  repeat split; try assumption.
  - rewrite Hs. destruct start as [[p|n s]|]; reflexivity.
  - rewrite He. destruct end_ as [[p|n s]|]; reflexivity.
Qed.

(** X13: the label on the references survives [modify]: after creating an
    interval and modifying it, whatever the places, both references of the
    result carry the label of the interval under "referenceRangeLabels". *)
Theorem modify_keeps_labels_on_endpoints label id start end_ client intervalType
    op fromSnapshot useNew props rollback (w w1 w2 : World) i
    label' start' end_' op' localSeq' useNew' i' :
  createSequenceInterval label id start end_ client intervalType op
    fromSnapshot useNew props rollback w = inr (i, w1) ->
  SequenceIntervalClass.modify i label' start' end_' op' localSeq' useNew' w1
  = inr (i', w2) ->
  lref_properties (SequenceIntervalClass.start i')
  = Some {[ "referenceRangeLabels" := VArr [VStr label] ]}
  /\ lref_properties (SequenceIntervalClass.end_ i')
     = Some {[ "referenceRangeLabels" := VArr [VStr label] ]}
  /\ SequenceIntervalClass.label i' = label.
Proof.
  intros Hcreate Hmodify.
  pose proof (createSequenceInterval_inr _ _ _ _ _ _ _ _ _ _ _ _ _ _ Hcreate)
    as (_ & _ & _ & _ & Hlabel).
  apply createSequenceInterval_endpoints in Hcreate
    as (s & e & Hs & He & _ & _ & Hsp & Hep & _).
  apply modify_shape in Hmodify
    as (Hlabel' & _ & _ & _ & _ & _ & Hs' & He').
  assert (Hprops : forall r : LocalReferencePosition,
             lref_properties r = None ->
             lref_properties
               (lref_addProperties r
                  {[ reservedRangeLabelsKey := VArr [VStr label] ]})
             = Some {[ "referenceRangeLabels" := VArr [VStr label] ]}).
  { intros r Hr. unfold lref_addProperties. cbn [lref_properties]. rewrite Hr.
    change (default ∅ (@None PropertySet)) with (∅ : PropertySet).
    unfold reservedRangeLabelsKey.
    rewrite addProperties_empty_singleton by discriminate. reflexivity. }
  rewrite Hs' , He', Hs, He, !Hprops by assumption.
  cbn [fmap option_fmap option_map].
  rewrite addProperties_empty_singleton by discriminate.
  split; [destruct start'; reflexivity|].
  split; [destruct end_'; reflexivity|]. congruence.
Qed.

Lemma bind_inl {A B} (c : M A) (k : A -> M B) (w : World) (e : Error) :
  (c ≫= k) w = inl e <->
  c w = inl e \/ exists a w1, c w = inr (a, w1) /\ k a w1 = inl e.
Proof.
  unfold mbind, M_bind. split.
  - destruct (c w) as [e' | [a w1]]; intros H;
      [left; injection H as ->; reflexivity | right; eauto].
  - intros [-> | (a & w1 & -> & Hk)]; [reflexivity | exact Hk].
Qed.

Lemma modify_endpoint_local_no_assertion (client : Client)
    (old : LocalReferencePosition) (place : option Pos) localSeq sp exclusive
    useNew (w : World) code :
  match place with
  | Some pos =>
      ref ← createPositionReference client pos
              (SequenceIntervalClass.getRefType None (refType old))
              None None localSeq sp exclusive useNew None;
      mret (SequenceIntervalClass.copy_ref_properties old ref)
  | None => mret old
  end w <> inl (AssertionError code).
Proof.
  destruct place as [pos|]; [|discriminate].
  intros H. apply bind_inl in H as [H | (a & w1 & _ & H)]; [|discriminate H].
  rewrite createPositionReference_formula in H.
  unfold failed_assertion in H.
  destruct (getRefType_local_flags (refType old)) as [Hslide _].
  rewrite Hslide in H. cbn [negb orb] in H.
  destruct (_ && _); discriminate H.
Qed.

(** X14: a [modify] without an op never fails an assertion, whatever the
    reference types of the interval: the replaced references are made
    StayOnRemove first.  It can only be refused a reference without a
    segment. *)
Theorem modify_local_no_assertion (this : SequenceIntervalClass.t) label
    start end_ localSeq useNew (w : World) :
  (forall code,
     SequenceIntervalClass.modify this label start end_ None localSeq useNew w
     <> inl (AssertionError code))
  /\ (forall e,
       SequenceIntervalClass.modify this label start end_ None localSeq useNew w
       = inl e ->
       e = UsageError "Non-transient references need segment").
Proof.
  assert (Hstep : forall (client : Client) (old : LocalReferencePosition)
                    (place : option Pos) sp exclusive (w0 : World) e,
             match place with
             | Some pos =>
                 ref ← createPositionReference client pos
                         (SequenceIntervalClass.getRefType None (refType old))
                         None None localSeq sp exclusive useNew None;
                 mret (SequenceIntervalClass.copy_ref_properties old ref)
             | None => mret old
             end w0 = inl e ->
             e = UsageError "Non-transient references need segment").
  { intros client old place sp exclusive w0 e H.
    destruct e as [message | code];
      [|exfalso; eapply modify_endpoint_local_no_assertion; exact H].
    destruct place as [pos|]; [|discriminate H].
    apply bind_inl in H as [H | (a & w1 & _ & H)]; [|discriminate H].
    rewrite createPositionReference_formula in H.
    destruct (failed_assertion _ _ _); [discriminate H|].
    destruct (_ && _); [|discriminate H].
    injection H as <-. reflexivity. }
  assert (Hall : forall e,
             SequenceIntervalClass.modify this label start end_ None localSeq
               useNew w = inl e ->
             e = UsageError "Non-transient references need segment").
  { intros e H. unfold SequenceIntervalClass.modify in H.
    apply bind_inl in H as [H | (startRef & w1 & _ & H)];
      [eapply Hstep; exact H|].
    apply bind_inl in H as [H | (endRef & w2 & _ & H)];
      [eapply Hstep; exact H | discriminate H]. }
  split; [|exact Hall].
  intros code H. apply Hall in H. discriminate H.
Qed.

Lemma bind_run {A B} (c : M A) (k : A -> M B) (w : World) :
  (c ≫= k) w
  = match c w with
    | inl e => inl e
    | inr (a, w1) => k a w1
    end.
Proof. reflexivity. Qed.

Lemma modify_endpoint_op (client : Client) (old : LocalReferencePosition)
    (place : option Pos) (o : ISequencedDocumentMessage) localSeq sp exclusive
    useNew (w : World) :
  match place with
  | Some pos =>
      ref ← createPositionReference client pos
              (SequenceIntervalClass.getRefType (Some o) (refType old))
              (Some o) None localSeq sp exclusive useNew None;
      mret (SequenceIntervalClass.copy_ref_properties old ref)
  | None => mret old
  end w
  = match place with
    | Some pos =>
        if refTypeIncludesFlag (refType old) ReferenceType.SlideOnRemove
        then inr (SequenceIntervalClass.copy_ref_properties old
                    (reference_at (next_oid w)
                       (segoff_for client pos (Some o) localSeq sp useNew)
                       (refType old) sp (Some exclusive)), allocated w)
        else inl (AssertionError 0x2f5)
    | None => inr (old, w)
    end.
Proof.
  destruct place as [pos|]; [|reflexivity].
  rewrite bind_run, createPositionReference_formula.
  cbn [SequenceIntervalClass.getRefType failed_assertion must_have_segment
       is_defined negb andb].
  rewrite andb_false_r.
  destruct (refTypeIncludesFlag _ _); reflexivity.
Qed.

Lemma copy_ref_properties_segment (old r : LocalReferencePosition) :
  getSegment (SequenceIntervalClass.copy_ref_properties old r) = getSegment r.
Proof.
  unfold SequenceIntervalClass.copy_ref_properties.
  destruct (lref_properties old); reflexivity.
Qed.

(** [modify] under an op, as its two endpoints. *)
Lemma modify_op_run (this : SequenceIntervalClass.t) label start end_
    (o : ISequencedDocumentMessage) localSeq useNew (w : World) :
  let stickiness := modify_stickiness this start end_ in
  let startPreference := startReferenceSlidingPreference stickiness in
  let endPreference := endReferenceSlidingPreference stickiness in
  let w1 := match start with Some _ => allocated w | None => w end in
  let w2 := match end_ with Some _ => allocated w1 | None => w1 end in
  let startRef :=
    match place_pos start with
    | Some pos =>
        SequenceIntervalClass.copy_ref_properties
          (SequenceIntervalClass.start this)
          (reference_at (next_oid w)
             (segoff_for (SequenceIntervalClass.client this) pos (Some o)
                localSeq (Some startPreference) useNew)
             (refType (SequenceIntervalClass.start this))
             (Some startPreference)
             (Some (SlidingPreference_eqb startPreference BACKWARD)))
    | None => SequenceIntervalClass.start this
    end in
  let endRef :=
    match place_pos end_ with
    | Some pos =>
        SequenceIntervalClass.copy_ref_properties
          (SequenceIntervalClass.end_ this)
          (reference_at (next_oid w1)
             (segoff_for (SequenceIntervalClass.client this) pos (Some o)
                localSeq (Some endPreference) useNew)
             (refType (SequenceIntervalClass.end_ this))
             (Some endPreference)
             (Some (SlidingPreference_eqb endPreference FORWARD)))
    | None => SequenceIntervalClass.end_ this
    end in
  replaceable_under_op start (SequenceIntervalClass.start this)
  && replaceable_under_op end_ (SequenceIntervalClass.end_ this) = true ->
  exists i',
    SequenceIntervalClass.modify this label start end_ (Some o) localSeq
      useNew w = inr (i', w2)
    /\ SequenceIntervalClass.start i' = startRef
    /\ SequenceIntervalClass.end_ i' = endRef.
Proof.
  cbn zeta. unfold SequenceIntervalClass.modify, modify_stickiness. cbn zeta.
  rewrite bind_run, modify_endpoint_op.
  destruct start as [[p|n s]|];
    cbn [endpointPosAndSide pas_startPos pas_endPos pas_startSide pas_endSide
         place_pos place_side replaceable_under_op];
    try destruct (refTypeIncludesFlag
                    (refType (SequenceIntervalClass.start this)) _);
    cbn [andb];
    try (intros H; discriminate H);
    rewrite bind_run, modify_endpoint_op;
    destruct end_ as [[p'|n' s']|];
    cbn [endpointPosAndSide pas_startPos pas_endPos pas_startSide pas_endSide
         place_pos place_side replaceable_under_op];
    try destruct (refTypeIncludesFlag
                    (refType (SequenceIntervalClass.end_ this)) _);
    try (intros H; discriminate H);
    (intros _; eexists; repeat split).
Qed.

(** X15: under an op [modify] returns exactly when every endpoint it has to
    replace is SlideOnRemove already, and otherwise fails the assertion
    0x2f5 of the factory; a place without a segment is no obstacle, the
    reference is then detached: a new reference on no segment with the
    sliding preference and the reference type of the old one, and its
    properties; an endpoint without a place stays the old reference. *)
Theorem modify_under_op (this : SequenceIntervalClass.t) label start end_
    (o : ISequencedDocumentMessage) localSeq useNew (w : World) :
  let replaceable :=
    replaceable_under_op start (SequenceIntervalClass.start this)
    && replaceable_under_op end_ (SequenceIntervalClass.end_ this) in
  let stickiness := modify_stickiness this start end_ in
  let startPreference := startReferenceSlidingPreference stickiness in
  let endPreference := endReferenceSlidingPreference stickiness in
  (replaceable = true ->
   exists i' w',
     SequenceIntervalClass.modify this label start end_ (Some o) localSeq
       useNew w = inr (i', w')
     /\ (forall pos, place_pos start = Some pos ->
           let segoff :=
             segoff_for (SequenceIntervalClass.client this) pos (Some o)
               localSeq (Some startPreference) useNew in
           (getSegment (SequenceIntervalClass.start i') = None
            <-> segment_undefined segoff = true)
           /\ (segment_undefined segoff = true ->
               SequenceIntervalClass.start i'
               = SequenceIntervalClass.copy_ref_properties
                   (SequenceIntervalClass.start this)
                   (detachedReference (next_oid w) (Some startPreference)
                      (refType (SequenceIntervalClass.start this)))))
     /\ (forall pos, place_pos end_ = Some pos ->
           let segoff :=
             segoff_for (SequenceIntervalClass.client this) pos (Some o)
               localSeq (Some endPreference) useNew in
           (getSegment (SequenceIntervalClass.end_ i') = None
            <-> segment_undefined segoff = true)
           /\ (segment_undefined segoff = true ->
               SequenceIntervalClass.end_ i'
               = SequenceIntervalClass.copy_ref_properties
                   (SequenceIntervalClass.end_ this)
                   (detachedReference
                      (match start with
                       | Some _ => S (next_oid w)
                       | None => next_oid w
                       end) (Some endPreference)
                      (refType (SequenceIntervalClass.end_ this)))))
     /\ (start = None ->
         SequenceIntervalClass.start i' = SequenceIntervalClass.start this)
     /\ (end_ = None ->
         SequenceIntervalClass.end_ i' = SequenceIntervalClass.end_ this))
  /\ (replaceable = false ->
      SequenceIntervalClass.modify this label start end_ (Some o) localSeq
        useNew w = inl (AssertionError 0x2f5)).
Proof.
  cbn zeta. split.
  - intros Hreplaceable.
    destruct (modify_op_run this label start end_ o localSeq useNew w
                Hreplaceable) as (i' & Hrun & Hstart & Hend).
    eexists _, _. split; [exact Hrun|].
    rewrite Hstart, Hend. clear Hrun Hstart Hend.
    split; [|split; [|split]].
    + intros pos ->. cbn zeta. rewrite copy_ref_properties_segment.
      split; [apply reference_at_segment|].
      intros Hnone. f_equal. apply (reference_at_segment _ _ _ _ _), Hnone.
    + intros pos ->. cbn zeta. rewrite copy_ref_properties_segment.
      split; [apply reference_at_segment|].
      intros Hnone. f_equal.
      rewrite (proj2 (reference_at_segment _ _ _ _ _) Hnone).
      destruct start; reflexivity.
    + intros ->. reflexivity.
    + intros ->. reflexivity.
  - unfold SequenceIntervalClass.modify. cbn zeta.
    rewrite bind_run, modify_endpoint_op.
    destruct start as [[p|n s]|];
      cbn [endpointPosAndSide pas_startPos pas_endPos place_pos
           replaceable_under_op];
      try destruct (refTypeIncludesFlag
                      (refType (SequenceIntervalClass.start this)) _);
      cbn [andb];
      try reflexivity;
      rewrite bind_run, modify_endpoint_op;
      destruct end_ as [[p'|n' s']|];
      cbn [endpointPosAndSide pas_startPos pas_endPos place_pos
           replaceable_under_op];
      try destruct (refTypeIncludesFlag
                      (refType (SequenceIntervalClass.end_ this)) _);
      first [ intros H; discriminate H | reflexivity ].
Qed.

End ModifyCases.

Lemma modify_keeps_label_and_properties_witness :
  exists i' w',
    SequenceIntervalClass.modify (UG := Flat.uuids) (MT := Flat.mergeTree 11)
      interval_A "other" (Some (Interior 1 After)) None None None false
      world_after_A = inr (i', w')
    /\ SequenceIntervalClass.label i' = "x"
    /\ SequenceIntervalClass.startSide i' = After.
Proof.
  eexists _, _. split; [exact eq_refl|].
  destruct (modify_keeps_label_and_properties (UG := Flat.uuids)
              (MT := Flat.mergeTree 11)
              interval_A "other" (Some (Interior 1 After)) None None None false
              world_after_A _ _ eq_refl) as (Hlabel & _ & _ & _ & Hside & _).
  split; [exact Hlabel | exact Hside].
Defined.

Lemma modify_keeps_labels_on_endpoints_witness :
  exists i w1 i' w2,
    createSequenceInterval (UG := Flat.uuids) (MT := Flat.mergeTree 11)
      "hl" "abc" (Some (Interior 2 After)) (Some (Interior 9 Before))
      (Flat.client 11) IntervalType.SlideOnRemove None None false None None
      (Flat.world ∅) = inr (i, w1)
    /\ SequenceIntervalClass.modify (UG := Flat.uuids) (MT := Flat.mergeTree 11)
         i "other" (Some (Plain (PNum 4))) None None None false w1
       = inr (i', w2)
    /\ lref_properties (SequenceIntervalClass.start i')
       = Some {[ "referenceRangeLabels" := VArr [VStr "hl"] ]}.
Proof.
  eexists _, _, _, _. split; [exact eq_refl|]. split; [exact eq_refl|].
  destruct (modify_keeps_labels_on_endpoints (UG := Flat.uuids)
              (MT := Flat.mergeTree 11)
              "hl" "abc" (Some (Interior 2 After)) (Some (Interior 9 Before))
              (Flat.client 11) IntervalType.SlideOnRemove None None false None
              None (Flat.world ∅) _ _ _
              "other" (Some (Plain (PNum 4))) None None None false _
              eq_refl eq_refl) as [Hstart _].
  exact Hstart.
Defined.

Lemma modify_local_no_assertion_witness :
  SequenceIntervalClass.modify (UG := Flat.uuids) (MT := Flat.mergeTree 11)
    interval_A_acked "x" (Some (Plain (PNum 40))) None None None false
    world_after_A
  = inl (UsageError "Non-transient references need segment").
Proof.
  destruct (SequenceIntervalClass.modify (UG := Flat.uuids)
              (MT := Flat.mergeTree 11) interval_A_acked "x"
              (Some (Plain (PNum 40))) None None None false world_after_A)
    as [e | [i' w']] eqn:Hrun.
  - f_equal.
    exact (proj2 (modify_local_no_assertion (UG := Flat.uuids)
                    (MT := Flat.mergeTree 11) interval_A_acked "x"
                    (Some (Plain (PNum 40))) None None false world_after_A)
             e Hrun).
  - discriminate Hrun.
Defined.

Lemma modify_under_op_witness :
  (exists i' w',
     SequenceIntervalClass.modify (UG := Flat.uuids) (MT := Flat.mergeTree 11)
       interval_A_acked "x" (Some (Plain (PNum 40))) None (Some remote_op) None
       false world_after_A = inr (i', w')
     /\ getSegment (SequenceIntervalClass.start i') = None
     /\ SequenceIntervalClass.end_ i'
        = SequenceIntervalClass.end_ interval_A_acked)
  /\ SequenceIntervalClass.modify (UG := Flat.uuids) (MT := Flat.mergeTree 11)
       interval_A "x" (Some (Plain (PNum 1))) None (Some remote_op) None
       false world_after_A = inl (AssertionError 0x2f5).
Proof.
  split.
  - destruct (modify_under_op (UG := Flat.uuids) (MT := Flat.mergeTree 11)
                interval_A_acked "x" (Some (Plain (PNum 40))) None remote_op
                None false world_after_A) as [Hreturns _].
    destruct (Hreturns eq_refl) as (i' & w' & Hrun & Hstart & _ & _ & Hend).
    exists i', w'. split; [exact Hrun|].
    split; [|apply Hend; reflexivity].
    apply (Hstart (PNum 40) eq_refl). reflexivity.
  - apply (modify_under_op (UG := Flat.uuids) (MT := Flat.mergeTree 11)
             interval_A "x" (Some (Plain (PNum 1))) None remote_op None
             false world_after_A).
    reflexivity.
Defined.

(** ** More on the order, on overlap and on union *)

Lemma lex_zero {T : Type} (f g : T -> T -> Z) (a b : T) :
  lex f g a b = 0 <-> f a b = 0 /\ g a b = 0.
Proof. unfold lex. destruct (Z.eqb_spec (f a b) 0); lia. Qed.

Lemma compareSides_zero (s t : Side) : compareSides s t = 0 <-> s = t.
Proof. destruct s, t; cbn; split; congruence || lia || discriminate. Qed.

Lemma compare_strings_zero (a b : string) : compare_strings a b = 0 <-> a = b.
Proof.
  rewrite compare_strings_spec. split.
  - destruct (String.compare a b) eqn:H; try discriminate.
    intros _. apply String.compare_eq_iff, H.
  - intros ->. rewrite string_compare_refl. reflexivity.
Qed.

Section CompareZero.

Context `{MT : MergeTree}.

(** X16: two intervals with non-empty ids compare as 0 exactly when their
    starts tie with the same side, their ends tie with the same side, and
    their ids are the same string; when one of the ids is empty the ids
    play no part, and the endpoints and sides alone decide. *)
Theorem compare_zero_iff (a b : SequenceIntervalClass.t) :
  let endpoints_tie :=
    compareReferencePositions (SequenceIntervalClass.start a)
      (SequenceIntervalClass.start b) = 0
    /\ SequenceIntervalClass.startSide a = SequenceIntervalClass.startSide b
    /\ compareReferencePositions (SequenceIntervalClass.end_ a)
         (SequenceIntervalClass.end_ b) = 0
    /\ SequenceIntervalClass.endSide a = SequenceIntervalClass.endSide b in
  (has_id a -> has_id b ->
   (SequenceIntervalClass.compare a b = 0
    <-> endpoints_tie
        /\ SequenceIntervalClass.getIntervalId a
           = SequenceIntervalClass.getIntervalId b))
  /\ (SequenceIntervalClass.getIntervalId a = ""
      \/ SequenceIntervalClass.getIntervalId b = "" ->
      (SequenceIntervalClass.compare a b = 0 <-> endpoints_tie)).
Proof.
  cbn zeta. split.
  - intros Ha Hb. rewrite (compare_lex a b Ha Hb), !lex_zero.
    unfold byStart, byStartSide, byEnd, byEndSide, byId,
      SequenceIntervalClass.getIntervalId.
    rewrite !compareSides_zero, compare_strings_zero.
    intuition congruence.
  - intros Hempty.
    assert (Hlex : SequenceIntervalClass.compare a b
                   = lex (lex byStart byStartSide)
                       (lex (lex byEnd byEndSide) (fun _ _ => 0)) a b).
    { unfold SequenceIntervalClass.compare, SequenceIntervalClass.compareStart,
        SequenceIntervalClass.compareEnd, SequenceIntervalClass.getIntervalId,
        lex, byStart, byStartSide, byEnd, byEndSide in *.
      destruct Hempty as [Ha | Hb].
      - rewrite Ha. reflexivity.
      - rewrite Hb. destruct (truthy_string _); reflexivity. }
    rewrite Hlex, !lex_zero.
    unfold byStart, byStartSide, byEnd, byEndSide.
    rewrite !compareSides_zero.
    intuition congruence.
Qed.

End CompareZero.

Lemma compare_zero_iff_witness :
  SequenceIntervalClass.compare (MT := Flat.mergeTree 11) interval_A interval_A_acked
  = 0.
Proof.
  destruct (compare_zero_iff (MT := Flat.mergeTree 11) interval_A interval_A_acked)
    as [Hids _].
  apply Hids; [discriminate | discriminate | repeat split].
Defined.

Section OverlapAndUnion.

Context `{UG : UuidGenerator} `{MT : MergeTree}.

Hypothesis compareReferencePositions_antisymmetric :
  forall a b, compareReferencePositions a b = - compareReferencePositions b a.

Hypothesis compareReferencePositions_transitive :
  forall a b c,
    compareReferencePositions a b <= 0 -> compareReferencePositions b c <= 0 ->
    compareReferencePositions a c <= 0.

Hypothesis minReferencePosition_either :
  forall a b, minReferencePosition a b = a \/ minReferencePosition a b = b.

Hypothesis minReferencePosition_lower :
  forall a b,
    compareReferencePositions (minReferencePosition a b) a <= 0
    /\ compareReferencePositions (minReferencePosition a b) b <= 0.

Hypothesis maxReferencePosition_either :
  forall a b, maxReferencePosition a b = a \/ maxReferencePosition a b = b.

Hypothesis maxReferencePosition_upper :
  forall a b,
    compareReferencePositions a (maxReferencePosition a b) <= 0
    /\ compareReferencePositions b (maxReferencePosition a b) <= 0.

(** X17: with an antisymmetric reference comparator, overlap is
    symmetric. *)
Theorem overlaps_symmetric (a b : SequenceIntervalClass.t) :
  SequenceIntervalClass.overlaps a b = SequenceIntervalClass.overlaps b a.
Proof.
  unfold SequenceIntervalClass.overlaps.
  pose proof (compareReferencePositions_antisymmetric
                (SequenceIntervalClass.start a) (SequenceIntervalClass.end_ b)).
  pose proof (compareReferencePositions_antisymmetric
                (SequenceIntervalClass.end_ a) (SequenceIntervalClass.start b)).
  apply eq_true_iff_eq.
  rewrite !andb_true_iff, !Z.leb_le, !Z.geb_le. lia.
Qed.

(** X18: the union of an interval with itself has the endpoints, the
    sides, the label, the type and the client of the interval; only the id
    is new, a draw of the uuid generator, which is not the id of the
    interval when the generator accounts for that id; and the properties
    and their manager are gone. *)
Theorem union_with_itself (a : SequenceIntervalClass.t) (w : World) :
  exists u w',
    SequenceIntervalClass.union a a w = inr (u, w')
    /\ SequenceIntervalClass.start u = SequenceIntervalClass.start a
    /\ SequenceIntervalClass.end_ u = SequenceIntervalClass.end_ a
    /\ SequenceIntervalClass.startSide u = SequenceIntervalClass.startSide a
    /\ SequenceIntervalClass.endSide u = SequenceIntervalClass.endSide a
    /\ SequenceIntervalClass.label u = SequenceIntervalClass.label a
    /\ SequenceIntervalClass.intervalType u
       = SequenceIntervalClass.intervalType a
    /\ SequenceIntervalClass.client u = SequenceIntervalClass.client a
    /\ SequenceIntervalClass.id u = (uuid_draw (uuid_state w)).1
    /\ (SequenceIntervalClass.id a ∈ taken (uuid_state w) ->
        SequenceIntervalClass.id u <> SequenceIntervalClass.id a)
    /\ SequenceIntervalClass.properties u = ∅
    /\ SequenceIntervalClass.propertyManager u = None
    /\ next_oid w' = next_oid w
    /\ uuid_state w' = (uuid_draw (uuid_state w)).2.
Proof.
  eexists _, _. split; [apply union_inr|]. cbn.
  unfold same_object. rewrite !Nat.eqb_refl.
  repeat split.
  - destruct (minReferencePosition_either (SequenceIntervalClass.start a)
                (SequenceIntervalClass.start a)); assumption.
  - destruct (maxReferencePosition_either (SequenceIntervalClass.end_ a)
                (SequenceIntervalClass.end_ a)); assumption.
  - destruct (SequenceIntervalClass.startSide a); reflexivity.
  - destruct (SequenceIntervalClass.endSide a); reflexivity.
  - intros Htaken Heq. apply (uuid_draw_fresh (uuid_state w)).
    rewrite Heq. exact Htaken.
Qed.

(** X19: the union of two intervals whose start is not after their end
    overlaps both of them, and its own start is not after its end. *)
Theorem union_overlaps_operands (a b : SequenceIntervalClass.t) (w : World) :
  compareReferencePositions (SequenceIntervalClass.start a)
    (SequenceIntervalClass.end_ a) <= 0 ->
  compareReferencePositions (SequenceIntervalClass.start b)
    (SequenceIntervalClass.end_ b) <= 0 ->
  exists u w',
    SequenceIntervalClass.union a b w = inr (u, w')
    /\ SequenceIntervalClass.overlaps u a = true
    /\ SequenceIntervalClass.overlaps u b = true
    /\ compareReferencePositions (SequenceIntervalClass.start u)
         (SequenceIntervalClass.end_ u) <= 0.
Proof.
  intros Ha Hb. eexists _, _. split; [apply union_inr|].
  unfold SequenceIntervalClass.overlaps. cbn.
  set (m := minReferencePosition (SequenceIntervalClass.start a)
              (SequenceIntervalClass.start b)).
  set (M := maxReferencePosition (SequenceIntervalClass.end_ a)
              (SequenceIntervalClass.end_ b)).
  destruct (minReferencePosition_lower (SequenceIntervalClass.start a)
              (SequenceIntervalClass.start b)) as [Hma Hmb].
  destruct (maxReferencePosition_upper (SequenceIntervalClass.end_ a)
              (SequenceIntervalClass.end_ b)) as [HMa HMb].
  fold m in Hma, Hmb. fold M in HMa, HMb.
  pose proof (compareReferencePositions_transitive _ _ _ Hma Ha) as H1.
  pose proof (compareReferencePositions_transitive _ _ _ Hmb Hb) as H2.
  pose proof (compareReferencePositions_transitive _ _ _ Ha HMa) as H3.
  pose proof (compareReferencePositions_transitive _ _ _ Hb HMb) as H4.
  pose proof (compareReferencePositions_transitive _ _ _ H1 HMa) as H5.
  pose proof (compareReferencePositions_antisymmetric M
                (SequenceIntervalClass.start a)) as H6.
  pose proof (compareReferencePositions_antisymmetric M
                (SequenceIntervalClass.start b)) as H7.
  rewrite !andb_true_iff, !Z.leb_le, !Z.geb_le.
  repeat split; lia.
Qed.

(** X20: the sides of a union do not depend on the order of the two
    intervals, as long as their starts (their ends) are one object or do
    not stand at the same position. *)
Theorem union_sides_commute (a b : SequenceIntervalClass.t) (w1 w2 : World) :
  exists u1 w1' u2 w2',
    SequenceIntervalClass.union a b w1 = inr (u1, w1')
    /\ SequenceIntervalClass.union b a w2 = inr (u2, w2')
    /\ (same_object (SequenceIntervalClass.start a)
          (SequenceIntervalClass.start b) = true
        \/ compareReferencePositions (SequenceIntervalClass.start a)
             (SequenceIntervalClass.start b) <> 0 ->
        SequenceIntervalClass.startSide u1 = SequenceIntervalClass.startSide u2)
    /\ (same_object (SequenceIntervalClass.end_ a)
          (SequenceIntervalClass.end_ b) = true
        \/ compareReferencePositions (SequenceIntervalClass.end_ a)
             (SequenceIntervalClass.end_ b) <> 0 ->
        SequenceIntervalClass.endSide u1 = SequenceIntervalClass.endSide u2).
Proof.
  eexists _, _, _, _. split; [apply union_inr|]. split; [apply union_inr|].
  cbn. unfold same_object.
  assert (Hsides : forall s t : Side, minSide s t = minSide t s
                                      /\ maxSide s t = maxSide t s)
    by (intros [] []; split; reflexivity).
  split.
  - rewrite (Nat.eqb_sym (lref_oid (SequenceIntervalClass.start b))).
    destruct (Nat.eqb (lref_oid (SequenceIntervalClass.start a))
                (lref_oid (SequenceIntervalClass.start b))) eqn:Hsame.
    + intros _. apply Hsides.
    + intros [H | Hne]; [discriminate H|].
      assert (Hcomm : minReferencePosition (SequenceIntervalClass.start a)
                        (SequenceIntervalClass.start b)
                      = minReferencePosition (SequenceIntervalClass.start b)
                          (SequenceIntervalClass.start a)).
      { pose proof (compareReferencePositions_antisymmetric
                      (SequenceIntervalClass.start a)
                      (SequenceIntervalClass.start b)) as Hab.
        destruct (minReferencePosition_lower (SequenceIntervalClass.start a)
                    (SequenceIntervalClass.start b)) as [L1 L2].
        destruct (minReferencePosition_lower (SequenceIntervalClass.start b)
                    (SequenceIntervalClass.start a)) as [L3 L4].
        destruct (minReferencePosition_either (SequenceIntervalClass.start a)
                    (SequenceIntervalClass.start b)) as [E1|E1],
          (minReferencePosition_either (SequenceIntervalClass.start b)
             (SequenceIntervalClass.start a)) as [E2|E2];
          rewrite E1, E2 in *; (reflexivity || lia). }
      rewrite <- Hcomm.
      destruct (minReferencePosition_either (SequenceIntervalClass.start a)
                  (SequenceIntervalClass.start b)) as [-> | ->].
      * rewrite Nat.eqb_refl, (Nat.eqb_sym _ _), Hsame. reflexivity.
      * rewrite Hsame, Nat.eqb_refl. reflexivity.
  - rewrite (Nat.eqb_sym (lref_oid (SequenceIntervalClass.end_ b))).
    destruct (Nat.eqb (lref_oid (SequenceIntervalClass.end_ a))
                (lref_oid (SequenceIntervalClass.end_ b))) eqn:Hsame.
    + intros _. apply Hsides.
    + intros [H | Hne]; [discriminate H|].
      assert (Hcomm : maxReferencePosition (SequenceIntervalClass.end_ a)
                        (SequenceIntervalClass.end_ b)
                      = maxReferencePosition (SequenceIntervalClass.end_ b)
                          (SequenceIntervalClass.end_ a)).
      { pose proof (compareReferencePositions_antisymmetric
                      (SequenceIntervalClass.end_ a)
                      (SequenceIntervalClass.end_ b)) as Hab.
        destruct (maxReferencePosition_upper (SequenceIntervalClass.end_ a)
                    (SequenceIntervalClass.end_ b)) as [L1 L2].
        destruct (maxReferencePosition_upper (SequenceIntervalClass.end_ b)
                    (SequenceIntervalClass.end_ a)) as [L3 L4].
        destruct (maxReferencePosition_either (SequenceIntervalClass.end_ a)
                    (SequenceIntervalClass.end_ b)) as [E1|E1],
          (maxReferencePosition_either (SequenceIntervalClass.end_ b)
             (SequenceIntervalClass.end_ a)) as [E2|E2];
          rewrite E1, E2 in *; (reflexivity || lia). }
      rewrite <- Hcomm.
      destruct (maxReferencePosition_either (SequenceIntervalClass.end_ a)
                  (SequenceIntervalClass.end_ b)) as [-> | ->].
      * rewrite Nat.eqb_refl, (Nat.eqb_sym _ _), Hsame. reflexivity.
      * rewrite Hsame, Nat.eqb_refl. reflexivity.
Qed.

End OverlapAndUnion.

(** The laws of the comparator, the lesser and the greater on the flat
    merge tree. *)
Ltac flat_law :=
  intros; cbn in *;
  unfold Flat.minReferencePosition, Flat.maxReferencePosition,
    Flat.compareReferencePositions in *;
  rewrite ?Z.gtb_ltb;
  repeat match goal with
         | |- context [?x <? ?y] => destruct (Z.ltb_spec x y)
         end;
  first [ lia | left; reflexivity | right; reflexivity | split; lia ].

Lemma overlaps_symmetric_witness :
  SequenceIntervalClass.overlaps (MT := Flat.mergeTree 11) interval_A interval_B
  = SequenceIntervalClass.overlaps (MT := Flat.mergeTree 11) interval_B interval_A.
Proof.
  apply (overlaps_symmetric (MT := Flat.mergeTree 11)). flat_law.
Defined.

Lemma union_with_itself_witness :
  exists u w',
    SequenceIntervalClass.union (UG := Flat.uuids) (MT := Flat.mergeTree 11)
      interval_5_7 interval_5_7 (Flat.world ∅) = inr (u, w')
    /\ SequenceIntervalClass.start u = SequenceIntervalClass.start interval_5_7
    /\ SequenceIntervalClass.startSide u = After
    /\ SequenceIntervalClass.label u = "y".
Proof.
  destruct (union_with_itself (UG := Flat.uuids) (MT := Flat.mergeTree 11))
    with (a := interval_5_7) (w := Flat.world ∅)
    as (u & w' & Hrun & Hstart & _ & Hside & _ & Hlabel & _).
  - flat_law.
  - flat_law.
  - exists u, w'. split; [exact Hrun|]. split; [exact Hstart|].
    split; [exact Hside | exact Hlabel].
Defined.

Lemma union_overlaps_operands_witness :
  exists u w',
    SequenceIntervalClass.union (UG := Flat.uuids) (MT := Flat.mergeTree 11)
      interval_A interval_5_7 (Flat.world ∅) = inr (u, w')
    /\ SequenceIntervalClass.overlaps (MT := Flat.mergeTree 11) u interval_A = true
    /\ SequenceIntervalClass.overlaps (MT := Flat.mergeTree 11) u interval_5_7 = true.
Proof.
  destruct (union_overlaps_operands (UG := Flat.uuids) (MT := Flat.mergeTree 11))
    with (a := interval_A) (b := interval_5_7) (w := Flat.world ∅)
    as (u & w' & Hrun & Ha & Hb & _).
  - flat_law.
  - flat_law.
  - flat_law.
  - flat_law.
  - vm_compute. discriminate.
  - vm_compute. discriminate.
  - exists u, w'. split; [exact Hrun|]. split; [exact Ha | exact Hb].
Defined.

Lemma union_sides_commute_witness :
  exists u1 w1' u2 w2',
    SequenceIntervalClass.union (UG := Flat.uuids) (MT := Flat.mergeTree 11)
      interval_A interval_5_7 (Flat.world ∅) = inr (u1, w1')
    /\ SequenceIntervalClass.union (UG := Flat.uuids) (MT := Flat.mergeTree 11)
         interval_5_7 interval_A (Flat.world ∅) = inr (u2, w2')
    /\ SequenceIntervalClass.startSide u1 = SequenceIntervalClass.startSide u2.
Proof.
  destruct (union_sides_commute (UG := Flat.uuids) (MT := Flat.mergeTree 11))
    with (a := interval_A) (b := interval_5_7) (w1 := Flat.world ∅)
         (w2 := Flat.world ∅)
    as (u1 & w1' & u2 & w2' & H1 & H2 & Hstart & _).
  - flat_law.
  - flat_law.
  - flat_law.
  - flat_law.
  - flat_law.
  - exists u1, w1', u2, w2'. split; [exact H1|]. split; [exact H2|].
    apply Hstart. right. vm_compute. discriminate.
Defined.

(** ** Clone *)

Section Clone.

Context `{MT : MergeTree}.

Hypothesis compareReferencePositions_antisymmetric :
  forall a b, compareReferencePositions a b = - compareReferencePositions b a.

(** X21: a clone has the id, the label, the type, the sides and the very
    references of the interval, and its properties, an entry that is
    [undefined] or [null] apart, which the copy leaves out; it has no
    property manager, and it compares as 0 with the interval and overlaps
    what the interval overlaps. *)
Theorem clone_same_interval (a b : SequenceIntervalClass.t) :
  SequenceIntervalClass.getIntervalId (SequenceIntervalClass.clone a)
  = SequenceIntervalClass.getIntervalId a
  /\ SequenceIntervalClass.label (SequenceIntervalClass.clone a)
     = SequenceIntervalClass.label a
  /\ SequenceIntervalClass.intervalType (SequenceIntervalClass.clone a)
     = SequenceIntervalClass.intervalType a
  /\ SequenceIntervalClass.start (SequenceIntervalClass.clone a)
     = SequenceIntervalClass.start a
  /\ SequenceIntervalClass.end_ (SequenceIntervalClass.clone a)
     = SequenceIntervalClass.end_ a
  /\ SequenceIntervalClass.startSide (SequenceIntervalClass.clone a)
     = SequenceIntervalClass.startSide a
  /\ SequenceIntervalClass.endSide (SequenceIntervalClass.clone a)
     = SequenceIntervalClass.endSide a
  /\ SequenceIntervalClass.propertyManager (SequenceIntervalClass.clone a) = None
  /\ (forall k,
        SequenceIntervalClass.properties (SequenceIntervalClass.clone a) !! k
        = match SequenceIntervalClass.properties a !! k with
          | Some VUndefined | Some VNull => None
          | held => held
          end)
  /\ SequenceIntervalClass.compare (SequenceIntervalClass.clone a) a = 0
  /\ SequenceIntervalClass.overlaps (SequenceIntervalClass.clone a) b
     = SequenceIntervalClass.overlaps a b.
Proof.
  assert (Hrefl : forall r, compareReferencePositions r r = 0)
    by (intros r; pose proof (compareReferencePositions_antisymmetric r r); lia).
  repeat split.
  - intros k. cbn. rewrite addProperties_lookup, lookup_empty.
    destruct (SequenceIntervalClass.properties a !! k) as [[]|]; reflexivity.
  - unfold SequenceIntervalClass.compare, SequenceIntervalClass.compareStart,
      SequenceIntervalClass.compareEnd, SequenceIntervalClass.getIntervalId.
    cbn. rewrite !Hrefl. cbn [Z.eqb].
    rewrite !compareSides_antisymmetric_refl. cbn [Z.eqb].
    unfold js_string_gt, js_string_lt. rewrite string_compare_refl.
    destruct (truthy_string _); reflexivity.
Qed.

End Clone.

Lemma clone_same_interval_witness :
  SequenceIntervalClass.compare (MT := Flat.mergeTree 11)
    (SequenceIntervalClass.clone interval_A) interval_A = 0
  /\ SequenceIntervalClass.start (SequenceIntervalClass.clone interval_A)
     = SequenceIntervalClass.start interval_A.
Proof.
  destruct (clone_same_interval (MT := Flat.mergeTree 11)) with
    (a := interval_A) (b := interval_B)
    as (_ & _ & _ & Hstart & _ & _ & _ & _ & _ & Hcompare & _).
  - flat_law.
  - split; [exact Hcompare | exact Hstart].
Defined.

(** ** Serializing and reading back *)

(** X22: reading back what [serializeDelta] wrote gives the id and the
    label of the interval, whatever the properties handed to
    [serializeDelta] hold under the reserved keys, and never a legacy id;
    the properties read back are those handed in, without the reserved
    keys. *)
Theorem getSerializedProperties_serializeDelta (MT : MergeTree)
    (i : SequenceIntervalClass.t) (props : option PropertySet)
    (includeEndpoints : bool) :
  let read :=
    getSerializedProperties
      (SequenceIntervalClass.serializeDelta i props includeEndpoints) in
  sp_id read = VStr (SequenceIntervalClass.getIntervalId i)
  /\ sp_labels read = VArr [VStr (SequenceIntervalClass.label i)]
  /\ sp_properties read !! "intervalId" = None
  /\ sp_properties read !! "referenceRangeLabels" = None
  /\ (forall k, k <> "intervalId" -> k <> "referenceRangeLabels" ->
        sp_properties read !! k = default ∅ props !! k).
Proof.
  cbn zeta. unfold getSerializedProperties, SequenceIntervalClass.serializeDelta.
  cbn [ser_properties sp_id sp_labels sp_properties default from_option
       Datatypes.id ser_start ser_end].
  unfold reservedIntervalIdKey, reservedRangeLabelsKey.
  rewrite js_get_insert, js_get_insert_ne, js_get_insert by discriminate.
  repeat split.
  - rewrite lookup_delete_ne, lookup_delete_eq by discriminate. reflexivity.
  - apply lookup_delete_eq.
  - intros k Hid Hlabels.
    rewrite !lookup_delete_ne, !lookup_insert_ne by congruence.
    destruct props; reflexivity.
Qed.

(** X23: [getSerializedProperties] returns an id that is present and
    neither [undefined] nor [null] as it is, and makes up the legacy id
    when the id is [null] or [undefined]; the properties it returns never
    hold a reserved key and agree with the record on every other key. *)
Theorem getSerializedProperties_reserved (s : SerializedIntervalDelta) :
  let bag : PropertySet := default ∅ (ser_properties s) in
  let legacy :=
    VStr ("legacy" +:+ template_of_pos (ser_start s) +:+ "-"
            +:+ template_of_pos (ser_end s)) in
  (forall v, bag !! "intervalId" = Some v -> v <> VUndefined -> v <> VNull ->
     sp_id (getSerializedProperties s) = v)
  /\ (bag !! "intervalId" = Some VNull \/ bag !! "intervalId" = Some VUndefined ->
      sp_id (getSerializedProperties s) = legacy)
  /\ sp_properties (getSerializedProperties s) !! "intervalId" = None
  /\ sp_properties (getSerializedProperties s) !! "referenceRangeLabels" = None
  /\ (forall k, k <> "intervalId" -> k <> "referenceRangeLabels" ->
        sp_properties (getSerializedProperties s) !! k = bag !! k).
Proof.
  cbn zeta. unfold getSerializedProperties, js_get.
  cbn [sp_id sp_labels sp_properties].
  unfold reservedIntervalIdKey, reservedRangeLabelsKey, legacyIdPrefix.
  repeat split.
  - intros v Hv Hu Hn. rewrite Hv. cbn. destruct v; try congruence; reflexivity.
  - intros [H | H]; rewrite H; reflexivity.
  - rewrite lookup_delete_ne, lookup_delete_eq by discriminate. reflexivity.
  - apply lookup_delete_eq.
  - intros k Hid Hlabels. rewrite !lookup_delete_ne by congruence. reflexivity.
Qed.

Lemma getSerializedProperties_reserved_witness :
  sp_id (getSerializedProperties
           {| ser_start := Some (PNum 3); ser_end := Some (PNum 7);
              ser_intervalType := IntervalType.SlideOnRemove;
              ser_sequenceNumber := 0; ser_stickiness := None;
              ser_startSide := None; ser_endSide := None;
              ser_properties := Some {[ "intervalId" := VNull ]} |})
  = VStr "legacy3-7".
Proof.
  refine (proj1 (proj2 (getSerializedProperties_reserved _)) _).
  left. reflexivity.
Defined.

(** ** The reference type of a replaced endpoint *)

(** X24: without an op [getRefType] changes the two removal flags only:
    every other flag of the reference type, RangeBegin, RangeEnd and
    Transient among them, is as before; with an op the reference type is
    returned as it is. *)
Theorem getRefType_other_flags (baseType : Z) :
  (forall k, 0 <= k < 31 -> k <> 6 -> k <> 7 ->
     refTypeIncludesFlag (SequenceIntervalClass.getRefType None baseType) (2 ^ k)
     = refTypeIncludesFlag baseType (2 ^ k))
  /\ refTypeIncludesFlag (SequenceIntervalClass.getRefType None baseType)
       ReferenceType.RangeBegin
     = refTypeIncludesFlag baseType ReferenceType.RangeBegin
  /\ refTypeIncludesFlag (SequenceIntervalClass.getRefType None baseType)
       ReferenceType.RangeEnd
     = refTypeIncludesFlag baseType ReferenceType.RangeEnd
  /\ refTypeIncludesFlag (SequenceIntervalClass.getRefType None baseType)
       ReferenceType.Transient
     = refTypeIncludesFlag baseType ReferenceType.Transient
  /\ (forall o, SequenceIntervalClass.getRefType (Some o) baseType = baseType).
Proof.
  assert (Hbit : forall k, 0 <= k < 31 -> k <> 6 -> k <> 7 ->
            refTypeIncludesFlag (SequenceIntervalClass.getRefType None baseType)
              (2 ^ k)
            = refTypeIncludesFlag baseType (2 ^ k)).
  { intros k Hk H6 H7. unfold SequenceIntervalClass.getRefType.
    change ReferenceType.SlideOnRemove with (2 ^ 6).
    change ReferenceType.StayOnRemove with (2 ^ 7).
    rewrite !refTypeIncludesFlag_testbit by lia.
    rewrite js_or_testbit, js_and_testbit, js_not_testbit by lia.
    rewrite (Z.pow2_bits_false 6 k), (Z.pow2_bits_false 7 k) by lia.
    cbn [negb]. rewrite andb_true_r, orb_false_r. reflexivity. }
  split; [exact Hbit|].
  split; [exact (Hbit 4 ltac:(lia) ltac:(lia) ltac:(lia))|].
  split; [exact (Hbit 5 ltac:(lia) ltac:(lia) ltac:(lia))|].
  split; [exact (Hbit 8 ltac:(lia) ltac:(lia) ltac:(lia))|].
  reflexivity.
Qed.

Lemma getRefType_other_flags_witness :
  refTypeIncludesFlag (SequenceIntervalClass.getRefType None 80) (2 ^ 4)
  = refTypeIncludesFlag 80 (2 ^ 4).
Proof.
  apply (proj1 (getRefType_other_flags 80) 4); lia.
Defined.

(** ** Position change listeners *)

Section ListenerLaws.

Context {Handler : Type}.

Implicit Types (st : @ListenerState Handler) (this : SequenceIntervalClass.t).

Lemma add_subscribed this (b a : Handler) st :
  callbacks st = None ->
  callbacks (addPositionChangeListeners this b a st) = Some (b, a)
  /\ ref_callbacks (addPositionChangeListeners this b a st)
       !! lref_oid (SequenceIntervalClass.start this)
     = Some {| beforeSlide := Some b; afterSlide := Some a |}
  /\ ref_callbacks (addPositionChangeListeners this b a st)
       !! lref_oid (SequenceIntervalClass.end_ this)
     = Some {| beforeSlide := Some b; afterSlide := Some a |}
  /\ (forall oid, oid <> lref_oid (SequenceIntervalClass.start this) ->
        oid <> lref_oid (SequenceIntervalClass.end_ this) ->
        ref_callbacks (addPositionChangeListeners this b a st) !! oid
        = ref_callbacks st !! oid).
Proof.
  intros Hnone. unfold addPositionChangeListeners, set_slide_callbacks.
  rewrite Hnone. cbn [callbacks ref_callbacks]. repeat split.
  - destruct (decide (lref_oid (SequenceIntervalClass.end_ this)
                      = lref_oid (SequenceIntervalClass.start this))) as [He|He].
    + rewrite He. apply lookup_insert_eq.
    + rewrite lookup_insert_ne by exact He. apply lookup_insert_eq.
  - apply lookup_insert_eq.
  - intros oid Hs He. rewrite !lookup_insert_ne by congruence. reflexivity.
Qed.

(** X25: the first subscription wins, a second call of
    [addPositionChangeListeners] changing nothing; subscribing writes the
    two listeners on both references and on no other; unsubscribing
    afterwards leaves both references without callbacks, touches no other
    reference, and lets the interval subscribe again. *)
Theorem listeners_subscribe_once this (b1 a1 b2 a2 : Handler) st :
  addPositionChangeListeners this b2 a2 (addPositionChangeListeners this b1 a1 st)
  = addPositionChangeListeners this b1 a1 st
  /\ (callbacks st = None ->
      let subscribed := addPositionChangeListeners this b1 a1 st in
      let removed := removePositionChangeListeners this subscribed in
      callbacks subscribed = Some (b1, a1)
      /\ ref_callbacks subscribed !! lref_oid (SequenceIntervalClass.start this)
         = Some {| beforeSlide := Some b1; afterSlide := Some a1 |}
      /\ ref_callbacks subscribed !! lref_oid (SequenceIntervalClass.end_ this)
         = Some {| beforeSlide := Some b1; afterSlide := Some a1 |}
      /\ callbacks removed = None
      /\ ref_callbacks removed !! lref_oid (SequenceIntervalClass.start this) = None
      /\ ref_callbacks removed !! lref_oid (SequenceIntervalClass.end_ this) = None
      /\ (forall oid, oid <> lref_oid (SequenceIntervalClass.start this) ->
            oid <> lref_oid (SequenceIntervalClass.end_ this) ->
            ref_callbacks subscribed !! oid = ref_callbacks st !! oid
            /\ ref_callbacks removed !! oid = ref_callbacks st !! oid)
      /\ callbacks (addPositionChangeListeners this b2 a2 removed) = Some (b2, a2)).
Proof.
  split.
  - unfold addPositionChangeListeners.
    destruct (callbacks st) eqn:Hst; cbn [callbacks]; rewrite ?Hst; reflexivity.
  - intros Hnone. cbn zeta.
    destruct (add_subscribed this b1 a1 st Hnone) as (Hc & Hs & He & Hother).
    assert (Hremoved : removePositionChangeListeners this
                         (addPositionChangeListeners this b1 a1 st)
                       = {| callbacks := None;
                            ref_callbacks :=
                              delete (lref_oid (SequenceIntervalClass.end_ this))
                                (delete (lref_oid (SequenceIntervalClass.start this))
                                   (ref_callbacks
                                      (addPositionChangeListeners this b1 a1 st))) |}).
    { unfold removePositionChangeListeners. rewrite Hc. reflexivity. }
    rewrite Hremoved. cbn [callbacks ref_callbacks].
    split; [exact Hc|]. split; [exact Hs|]. split; [exact He|].
    split; [reflexivity|].
    split.
    { destruct (decide (lref_oid (SequenceIntervalClass.end_ this)
                        = lref_oid (SequenceIntervalClass.start this))) as [E|E].
      - rewrite E. apply lookup_delete_eq.
      - rewrite lookup_delete_ne by exact E. apply lookup_delete_eq. }
    split; [apply lookup_delete_eq|].
    split.
    { intros oid Hos Hoe. split; [apply Hother; assumption|].
      rewrite !lookup_delete_ne by congruence. apply Hother; assumption. }
    unfold addPositionChangeListeners. reflexivity.
Qed.

(** X26: callbacks live on the reference, not on the interval: when two
    intervals share their end reference (as an interval and the result of
    modifying its start do) and both have subscribed, the listeners on the
    shared reference are those of the one that subscribed last, and
    unsubscribing the other interval leaves the shared reference without
    callbacks while the last one still counts as subscribed. *)
Theorem listeners_on_shared_reference (i1 i2 : SequenceIntervalClass.t)
    (b1 a1 b2 a2 : Handler) (store : gmap nat SlideCallbacks) :
  lref_oid (SequenceIntervalClass.end_ i1) = lref_oid (SequenceIntervalClass.end_ i2) ->
  let s1 := addPositionChangeListeners i1 b1 a1
              {| callbacks := None; ref_callbacks := store |} in
  let s2 := addPositionChangeListeners i2 b2 a2
              {| callbacks := None; ref_callbacks := ref_callbacks s1 |} in
  let s1' := removePositionChangeListeners i1
               {| callbacks := callbacks s1; ref_callbacks := ref_callbacks s2 |} in
  ref_callbacks s2 !! lref_oid (SequenceIntervalClass.end_ i1)
  = Some {| beforeSlide := Some b2; afterSlide := Some a2 |}
  /\ ref_callbacks s1' !! lref_oid (SequenceIntervalClass.end_ i2) = None
  /\ callbacks s2 = Some (b2, a2)
  /\ addPositionChangeListeners i2 b2 a2
       {| callbacks := callbacks s2; ref_callbacks := ref_callbacks s1' |}
     = {| callbacks := callbacks s2; ref_callbacks := ref_callbacks s1' |}.
Proof.
  intros Hshared. cbn zeta.
  unfold addPositionChangeListeners, removePositionChangeListeners,
    set_slide_callbacks.
  cbn [callbacks ref_callbacks].
  rewrite Hshared.
  split; [apply lookup_insert_eq|].
  split; [apply lookup_delete_eq|].
  split; reflexivity.
Qed.

End ListenerLaws.

Lemma listeners_subscribe_once_witness :
  callbacks
    (removePositionChangeListeners interval_A
       (addPositionChangeListeners interval_A 1%nat 2%nat
          {| callbacks := None; ref_callbacks := ∅ |})) = None.
Proof.
  destruct (listeners_subscribe_once interval_A 1%nat 2%nat 3%nat 4%nat
              {| callbacks := None; ref_callbacks := ∅ |}) as [_ H].
  destruct (H eq_refl) as (_ & _ & _ & Hremoved & _).
  exact Hremoved.
Defined.

Lemma listeners_on_shared_reference_witness :
  ref_callbacks
    (removePositionChangeListeners interval_4_6
       {| callbacks := Some (1%nat, 2%nat);
          ref_callbacks :=
            ref_callbacks
              (addPositionChangeListeners
                 (SequenceIntervalClass.new (Flat.client 11) "C" "x"
                    (Flat.ref 9 144 2) (SequenceIntervalClass.end_ interval_4_6)
                    IntervalType.SlideOnRemove None None None)
                 3%nat 4%nat
                 {| callbacks := None;
                    ref_callbacks :=
                      ref_callbacks
                        (addPositionChangeListeners interval_4_6 1%nat 2%nat
                           {| callbacks := None; ref_callbacks := ∅ |}) |}) |})
    !! 5%nat = None.
Proof.
  exact (proj1 (proj2 (listeners_on_shared_reference interval_4_6
                         (SequenceIntervalClass.new (Flat.client 11) "C" "x"
                            (Flat.ref 9 144 2)
                            (SequenceIntervalClass.end_ interval_4_6)
                            IntervalType.SlideOnRemove None None None)
                         1%nat 2%nat 3%nat 4%nat ∅ eq_refl))).
Defined.

(** ** Documentation of type-like API items *)

Section TransformLaws.

Context {ApiItem SectionNode Config ApiModifier : Type}.
Context `{D : @Documenter ApiItem SectionNode Config ApiModifier}.

Lemma accumulate_from (apiItem : ApiItem) (config : Config)
    (children : list ApiItem) (acc : Accumulated) :
  fold_left (accumulate_child apiItem config) children acc
  = mkAccumulated
      (constructors acc ++ List.filter (pushed_on Constructors) children)
      (allProperties acc ++ List.filter (pushed_on AllProperties) children)
      (callSignatures acc ++ List.filter (pushed_on CallSignatures) children)
      (indexSignatures acc ++ List.filter (pushed_on IndexSignatures) children)
      (allMethods acc ++ List.filter (pushed_on AllMethods) children)
      (logged_errors acc
       ++ if has_logger config
          then map (unsupported_kind_message apiItem)
                 (List.filter (fun c => negb (supported_child c)) children)
          else [])%list.
Proof.
  revert acc. induction children as [|child children IH]; intros acc.
  - cbn. rewrite !app_nil_r. destruct (has_logger config), acc;
      cbn; rewrite ?app_nil_r; reflexivity.
  - cbn [fold_left]. rewrite IH. clear IH.
    unfold accumulate_child, pushed_on, supported_child. cbn [List.filter].
    destruct (member_list_of (getApiItemKind child)) as [[]|];
      cbn [MemberList_eqb negb constructors allProperties callSignatures
           indexSignatures allMethods logged_errors];
      destruct (has_logger config); cbn [map];
      rewrite <- ?app_assoc; reflexivity.
Qed.

Lemma member_list_of_kinds (childKind : string) (l : MemberList) :
  member_list_of childKind = Some l ->
  childKind
  = match l with
    | Constructors => "Constructor"
    | AllProperties => "Property"
    | CallSignatures => "CallSignature"
    | IndexSignatures => "IndexSignature"
    | AllMethods => "Method"
    end
  \/ childKind
     = match l with
       | Constructors => "ConstructSignature"
       | AllProperties => "PropertySignature"
       | CallSignatures => "CallSignature"
       | IndexSignatures => "IndexSignature"
       | AllMethods => "MethodSignature"
       end.
Proof.
  unfold member_list_of.
  repeat match goal with
         | |- context [String.eqb childKind ?b] =>
             destruct (String.eqb_spec childKind b) as [? | ?];
             cbn [orb]; [intros [= <-]; auto|]
         end.
  discriminate.
Qed.

Lemma accumulate_by_kind_lists (apiItem : ApiItem) (config : Config)
    (children : list ApiItem) :
  constructors (accumulate apiItem config children)
  = List.filter (pushed_on Constructors) children
  /\ allProperties (accumulate apiItem config children)
     = List.filter (pushed_on AllProperties) children
  /\ callSignatures (accumulate apiItem config children)
     = List.filter (pushed_on CallSignatures) children
  /\ indexSignatures (accumulate apiItem config children)
     = List.filter (pushed_on IndexSignatures) children
  /\ allMethods (accumulate apiItem config children)
     = List.filter (pushed_on AllMethods) children.
Proof.
  unfold accumulate. rewrite accumulate_from. cbn. repeat split.
Qed.

(** X27: the loop of [transformApiTypeLike] sorts the children by kind:
    each of its five lists holds, in the order of the children, exactly the
    children of its kinds (Constructor and ConstructSignature; Property and
    PropertySignature; CallSignature; IndexSignature; Method and
    MethodSignature), a child of any other kind is on no list, and with a
    logger one error is logged for each such child, in order. *)
Theorem accumulate_by_kind (apiItem : ApiItem) (config : Config)
    (children : list ApiItem) :
  let acc := accumulate apiItem config children in
  constructors acc = List.filter (pushed_on Constructors) children
  /\ allProperties acc = List.filter (pushed_on AllProperties) children
  /\ callSignatures acc = List.filter (pushed_on CallSignatures) children
  /\ indexSignatures acc = List.filter (pushed_on IndexSignatures) children
  /\ allMethods acc = List.filter (pushed_on AllMethods) children
  /\ logged_errors acc
     = (if has_logger config
        then map (unsupported_kind_message apiItem)
               (List.filter (fun c => negb (supported_child c)) children)
        else [])
  /\ (forall child l,
        pushed_on l child = true
        <-> getApiItemKind child
            = match l with
              | Constructors => "Constructor"
              | AllProperties => "Property"
              | CallSignatures => "CallSignature"
              | IndexSignatures => "IndexSignature"
              | AllMethods => "Method"
              end
            \/ getApiItemKind child
               = match l with
                 | Constructors => "ConstructSignature"
                 | AllProperties => "PropertySignature"
                 | CallSignatures => "CallSignature"
                 | IndexSignatures => "IndexSignature"
                 | AllMethods => "MethodSignature"
                 end)
  /\ (forall child,
        supported_child child = true
        <-> exists l, pushed_on l child = true).
Proof.
  cbn zeta. unfold accumulate. rewrite accumulate_from. cbn.
  repeat match goal with |- _ /\ _ => split end; try reflexivity.
  - intros child l. unfold pushed_on. split.
    + destruct (member_list_of (getApiItemKind child)) as [l'|] eqn:Hkind;
        [|discriminate].
      apply member_list_of_kinds in Hkind.
      destruct l, l'; cbn; intros H; try discriminate H; exact Hkind.
    + destruct l; intros [-> | ->]; reflexivity.
  - intros child. unfold supported_child, pushed_on.
    destruct (member_list_of (getApiItemKind child)) as [l|]; split.
    + intros _. exists l. destruct l; reflexivity.
    + reflexivity.
    + discriminate.
    + intros [l H]. discriminate H.
Qed.

Lemma Permutation_past {A} (x : A) (l rest rest' : list A) :
  Permutation (x :: rest) rest' ->
  Permutation (x :: l ++ rest) (l ++ rest').
Proof.
  intros H. rewrite <- H. apply Permutation_middle.
Qed.

(** A child pushed on one of the lists of a table stays a member of the
    tables, whatever the position of that list. *)
Ltac insert_child IH :=
  cbn [concat app] in *;
  first [ exact IH
        | solve [ etransitivity; [|apply perm_skip, IH];
                  symmetry;
                  repeat first [ reflexivity | apply Permutation_past ] ] ].

(** X28: every child of a documented kind is in exactly one of the nine
    summary tables and in exactly one of the six details sections: the
    items of the tables, taken together, are the documented children,
    rearranged, and so are the items of the details sections. *)
Theorem tables_partition_children (apiItem : ApiItem) (config : Config)
    (children : list ApiItem) :
  let acc := accumulate apiItem config children in
  Permutation (concat (map items (memberTables acc)))
    (List.filter supported_child children)
  /\ Permutation (concat (map details_items (detailsTables acc)))
       (List.filter supported_child children).
Proof.
  cbn zeta.
  destruct (accumulate_by_kind_lists apiItem config children)
    as (Hc & Hp & Hcs & Hi & Hm).
  unfold memberTables, detailsTables, eventProperties, standardProperties.
  cbn [map items details_items].
  rewrite Hc, Hp, Hcs, Hi, Hm. clear.
  split.
  - induction children as [|child children IH]; [reflexivity|].
    unfold pushed_on, supported_child in *. cbn [List.filter].
    destruct (member_list_of (getApiItemKind child)) as [[]|];
      cbn [MemberList_eqb List.filter negb];
      try insert_child IH;
      destruct (isEventProperty child); cbn [List.filter negb];
      try insert_child IH;
      destruct (isStatic child); cbn [List.filter negb];
      insert_child IH.
  - induction children as [|child children IH]; [reflexivity|].
    unfold pushed_on, supported_child in *. cbn [List.filter].
    destruct (member_list_of (getApiItemKind child)) as [[]|];
      cbn [MemberList_eqb List.filter negb];
      try insert_child IH;
      destruct (isEventProperty child); cbn [List.filter negb];
      insert_child IH.
Qed.

(** X29: [transformApiTypeLike] lays out the sections of the summary
    tables followed by those of the details, an undefined result counting
    as no section (so the test on the number of details sections changes
    nothing, and without children the layout gets no section); and it logs,
    when the configuration has a logger, one error for each child of an
    undocumented kind, in the order of the children, and nothing otherwise. *)
Theorem transformApiTypeLike_layout (apiItem : ApiItem) (config : Config)
    (generateChildContent : ApiItem -> list SectionNode) :
  let children := getFilteredMembers apiItem config in
  let acc := accumulate apiItem config children in
  let sections :=
    match children with
    | [] => []
    | _ :: _ =>
        (default [] (createMemberTables (memberTables acc) config)
         ++ default [] (createChildDetailsSection (detailsTables acc) config
                          generateChildContent))%list
    end in
  transformApiTypeLike apiItem config generateChildContent
  = (defaultSectionLayout config apiItem sections config,
     if has_logger config
     then map (unsupported_kind_message apiItem)
            (List.filter (fun c => negb (supported_child c)) children)
     else []).
Proof.
  cbn zeta. unfold transformApiTypeLike.
  destruct (getFilteredMembers apiItem config) as [|child children] eqn:Hc.
  - cbn. destruct (has_logger config); reflexivity.
  - cbn [length Nat.ltb Nat.leb].
    f_equal; [f_equal|].
    2: { unfold accumulate. rewrite accumulate_from. reflexivity. }
    destruct (createMemberTables _ config) as [tables|];
      destruct (createChildDetailsSection _ config generateChildContent)
        as [[|d details]|]; cbn; rewrite ?app_nil_r; reflexivity.
Qed.

End TransformLaws.

(** ** A string of a given size *)

Lemma js_join_holes (k : nat) :
  String.length (js_join "0" (repeat "" (S k))) = k
  /\ forall i c, String.get i (js_join "0" (repeat "" (S k))) = Some c ->
       c = "0"%char.
Proof.
  induction k as [|k [IHlen IHget]].
  - split; [reflexivity|]. intros i c. cbn. destruct i; discriminate.
  - change (js_join "0" (repeat "" (S (S k))))
      with (String "0" (js_join "0" (repeat "" (S k)))).
    split.
    + cbn [String.length]. rewrite IHlen. reflexivity.
    + intros [|i] c; cbn [String.get].
      * intros [= <-]. reflexivity.
      * apply IHget.
Qed.

(** X30: for an integer size, on an engine whose longest string has
    [maxStringLength] characters, [generateStringOfSize] throws a
    [RangeError] in two cases and no other: for an invalid array length
    exactly when size + 1 is not an array length (the size is below -1 or
    above 2^32 - 2), and for an invalid string length exactly when
    size + 1 is an array length and the size is above the longest string;
    otherwise it returns a string of that many characters, each of them the
    digit 0 (for the size -1, as for 0, the empty string). *)
Theorem generateStringOfSize_spec (maxStringLength sizeInBytes : Z) :
  0 <= maxStringLength ->
  match generateStringOfSize maxStringLength sizeInBytes with
  | inl InvalidArrayLength => sizeInBytes < -1 \/ 4294967294 < sizeInBytes
  | inl InvalidStringLength =>
      -1 <= sizeInBytes <= 4294967294 /\ maxStringLength < sizeInBytes
  | inr s =>
      -1 <= sizeInBytes <= 4294967294
      /\ sizeInBytes <= maxStringLength
      /\ String.length s = Z.to_nat sizeInBytes
      /\ forall i c, String.get i s = Some c -> c = "0"%char
  end.
Proof.
  intros Hmax. unfold generateStringOfSize. cbn zeta.
  destruct (sizeInBytes + 1 <? 0) eqn:Hlow; cbn [orb].
  { apply Z.ltb_lt in Hlow. lia. }
  apply Z.ltb_ge in Hlow.
  destruct (sizeInBytes + 1 >? 4294967295) eqn:Hhigh.
  { apply Z.gtb_lt in Hhigh. lia. }
  assert (sizeInBytes + 1 <= 4294967295) as Hle.
  { rewrite Z.gtb_ltb in Hhigh. apply Z.ltb_ge in Hhigh. exact Hhigh. }
  destruct (Z.max 0 (sizeInBytes + 1 - 1) >? maxStringLength) eqn:Hlong.
  { apply Z.gtb_lt in Hlong. lia. }
  rewrite Z.gtb_ltb in Hlong. apply Z.ltb_ge in Hlong.
  split; [lia|]. split; [lia|].
  destruct (Z.to_nat (sizeInBytes + 1)) as [|k] eqn:Hk.
  - cbn. split; [lia|]. intros i c. destruct i; discriminate.
  - destruct (js_join_holes k) as [Hlen Hget]. split; [|exact Hget].
    rewrite Hlen. lia.
Qed.

Lemma generateStringOfSize_spec_witness :
  exists s,
    generateStringOfSize (2 ^ 29 - 24) 3 = inr s
    /\ String.length s = 3%nat
    /\ generateStringOfSize (2 ^ 29 - 24) (2 ^ 29)
       = inl InvalidStringLength.
Proof.
  eexists. split; [exact eq_refl|].
  pose proof (generateStringOfSize_spec (2 ^ 29 - 24) 3) as H.
  cbn in H. destruct H as (_ & _ & Hlen & _); [lia|].
  split; [exact Hlen | reflexivity].
Defined.
